(** * gm3/util.js: filters, extents, projections, units and catalog z-order

    A shallow embedding of the decision logic of [src/gm3/util.js] and the
    properties its specification states about it.

    Conventions of the embedding:
    - a JavaScript number is an IEEE 754 binary64 value, modelled by the
      Standard Library's [spec_float] with the operations [SFmul], [SFdiv],
      [SFltb] and [SFeqb] at precision 53 and maximal exponent 1024;
    - a call that may raise returns a [completion]: [Normal v] or
      [Throw TypeError];
    - an object used as a dictionary is a [gmap string _] when only lookups
      matter, and an association list in enumeration order when the code
      iterates over its keys. An object is given by its own keys; the
      members that it inherits from [Object.prototype] are the names of
      [Object_prototype], and a lookup by a name of the data says what it
      reads for such a name, or leaves these names out;
    - a string is a sequence of code units below 256, one [ascii] each. *)

From Stdlib Require Import ZArith Lia Bool List String Ascii.
From Stdlib Require Import SpecFloat PrimFloat FloatOps.
From Stdlib Require Import Sorted Permutation.
From stdpp Require Import base option list gmap strings pretty sorting.

Open Scope string_scope.
Open Scope Z_scope.

(** ** JavaScript numbers *)

Definition number : Type := spec_float.

Definition NaN : number := S754_nan.
Definition js_mul : number -> number -> number := SFmul 53 1024.
Definition js_div : number -> number -> number := SFdiv 53 1024.
(** [a < b] on two numbers *)
Definition num_lt : number -> number -> bool := SFltb.
(** [a === b] on two numbers: [NaN] differs from itself, [+0 === -0] *)
Definition num_eq : number -> number -> bool := SFeqb.

Definition is_nan (x : number) : bool :=
  match x with S754_nan => true | _ => false end.

(** The binary64 values that JavaScript can hold: canonical mantissa and
    exponent in range. *)
Definition is_double (x : number) : bool := valid_binary 53 1024 x.

(** [ToNumber] of a value that is either a number or [undefined]. *)
Definition ToNumber_opt (v : option number) : number :=
  match v with
  | Some n => n
  | None => NaN
  end.

(** ** Completions *)

Inductive error := TypeError.

Inductive completion (A : Type) :=
| Normal (a : A)
| Throw (e : error).
Arguments Normal {A} a.
Arguments Throw {A} e.

Global Instance completion_ret : MRet completion := fun A a => Normal a.
Global Instance completion_bind : MBind completion := fun A B k c =>
  match c with
  | Normal a => k a
  | Throw e => Throw e
  end.

(** ** Features and scalar values *)

(** A property value, a bound or a scalar of a filter: [undefined], [null],
    a boolean, a number or a string. *)
Inductive scalar :=
| SUndefined
| SNull
| SBool (b : bool)
| SNumber (n : number)
| SString (s : string).

(** A scalar or an array of scalars. *)
Inductive jsval :=
| JScalar (v : scalar)
| JArray (l : list scalar).

Definition coordinate : Type := number * number.

Inductive Geometry :=
| Point (coordinates : coordinate)
| LineString (coordinates : list coordinate)
| Polygon (coordinates : list (list coordinate))
| MultiLineString (coordinates : list (list coordinate))
| OtherGeometry (type : string).

Record Feature := {
  geometry : Geometry;
  properties : gmap string scalar
}.

(** [a === b] on scalars *)
Definition strict_eq (a b : scalar) : bool :=
  match a, b with
  | SUndefined, SUndefined => true
  | SNull, SNull => true
  | SBool x, SBool y => Bool.eqb x y
  | SNumber x, SNumber y => num_eq x y
  | SString x, SString y => String.eqb x y
  | _, _ => false
  end.

(** [o[key]] on an object given by its own keys: [undefined] when absent.
    This is what the code reads for every [key] that is an own key of [o] or
    is not a member of [Object.prototype]. *)
Definition get (o : gmap string scalar) (key : string) : scalar :=
  match o !! key with
  | Some v => v
  | None => SUndefined
  end.

(** ** Names that every object inherits *)

(** The properties of [Object.prototype]. An object written as a literal,
    copied by [Object.assign] or read from JSON inherits them: for one of
    these names that is not an own key of [o], [o[key]] is the inherited
    member, a function (for ["__proto__"] the prototype object itself), and
    not [undefined]. *)
Definition Object_prototype : list string :=
  [ "constructor"; "hasOwnProperty"; "isPrototypeOf"; "propertyIsEnumerable";
    "toLocaleString"; "toString"; "valueOf"; "__proto__";
    "__defineGetter__"; "__defineSetter__";
    "__lookupGetter__"; "__lookupSetter__" ].

Definition inherited (key : string) : bool :=
  existsb (String.eqb key) Object_prototype.

(** ** The filter evaluator (util.js, lines 217-299) *)

Module Filter.

(** A typed clause object [{type, min, max, value}]; a key that the object
    does not have reads as [undefined]. *)
Record clause := {
  type : scalar;
  min : scalar;
  max : scalar;
  value : jsval
}.

(** The value stored under one key of a filter: a scalar or an array
    (shorthand), or a clause object. The key [match] is one of them. *)
Inductive filter_def :=
| FValue (v : jsval)
| FClause (o : clause).

(** A filter object: its keys in [for ... in] order. *)
Definition filter : Type := list (string * filter_def).

Fixpoint lookup_key (key : string) (o : filter) : option filter_def :=
  match o with
  | [] => None
  | (k, d) :: o' => if String.eqb k key then Some d else lookup_key key o'
  end.

Section Evaluator.

(** The two conversions of the language that the evaluator reaches and that
    are left abstract: the number a string denotes and the decimal text of a
    number. *)
Variable StringToNumber : string -> number.
Variable NumberToString : number -> string.

Definition ToNumber (v : scalar) : number :=
  match v with
  | SUndefined => NaN
  | SNull => S754_zero false
  | SBool true => S754_finite false 4503599627370496 (-52)
  | SBool false => S754_zero false
  | SNumber n => n
  | SString s => StringToNumber s
  end.

Definition ToString (v : scalar) : string :=
  match v with
  | SUndefined => "undefined"
  | SNull => "null"
  | SBool true => "true"
  | SBool false => "false"
  | SNumber n => NumberToString n
  | SString s => s
  end.

(** [a < b]: two strings compare as strings, anything else as numbers. *)
Definition js_lt (a b : scalar) : bool :=
  match a, b with
  | SString x, SString y => String.ltb x y
  | _, _ => num_lt (ToNumber a) (ToNumber b)
  end.

(** [list.indexOf(value) >= 0] *)
Definition inList (value : scalar) (list : jsval) : completion bool :=
  match list with
  | JArray l => Normal (existsb (fun x => strict_eq x value) l)
  | JScalar (SString s) =>
      Normal (match String.index 0 (ToString value) s with
              | Some _ => true
              | None => false
              end)
  | JScalar _ => Throw TypeError
  end.

Definition is_null (v : scalar) : bool :=
  match v with SNull => true | _ => false end.

(** A parameter declared [= null] takes [null] for [undefined]. *)
Definition default_null (v : scalar) : scalar :=
  match v with SUndefined => SNull | _ => v end.

Definition inRange (value min max : scalar) : bool :=
  let min := default_null min in
  let max := default_null max in
  if negb (is_null min) && negb (is_null max) then
    js_lt min value && js_lt value max
  else if is_null min then
    js_lt value max
  else if is_null max then
    js_lt min value
  else
    true.

(** [filter_def.value === prop_val] *)
Definition value_strict_eq (v : jsval) (prop_val : scalar) : bool :=
  match v with
  | JScalar s => strict_eq s prop_val
  | JArray _ => false
  end.

(** The body of the loop up to the value of [v]: reading [filter_def.type]
    raises on [undefined] and [null], gives [undefined] on the other scalars
    and on arrays, and the switch compares it with [===]. *)
Definition clause_value (prop_val : scalar) (filter_def : filter_def)
  : completion bool :=
  match filter_def with
  | FClause o =>
      if strict_eq (type o) (SString "range") then
        Normal (inRange prop_val (min o) (max o))
      else if strict_eq (type o) (SString "list") then
        inList prop_val (value o)
      else if strict_eq (type o) (SString "equals") then
        Normal (value_strict_eq (value o) prop_val)
      else
        Normal false
  | FValue (JScalar SUndefined) => Throw TypeError
  | FValue (JScalar SNull) => Throw TypeError
  | FValue (JArray l) => inList prop_val (JArray l)
  | FValue (JScalar s) => Normal (strict_eq s prop_val)
  end.

Fixpoint featureMatch_loop (feature : Feature) (match_all : bool)
    (entries : filter) : completion bool :=
  match entries with
  | [] => if match_all then Normal true else Normal false
  | (filter_key, filter_def) :: entries' =>
      let prop_val := get (properties feature) filter_key in
      v ← clause_value prop_val filter_def;
      if v && negb match_all then Normal true
      else if negb v && match_all then Normal false
      else featureMatch_loop feature match_all entries'
  end.

(** [filter.match === 'any'] *)
Definition match_is_any (filter : filter) : bool :=
  match lookup_key "match" filter with
  | Some (FValue (JScalar v)) => strict_eq v (SString "any")
  | _ => false
  end.

Definition featureMatch (feature : Feature) (filter : filter) : completion bool :=
  let match_all := if match_is_any filter then false else true in
  featureMatch_loop feature match_all filter.

End Evaluator.

End Filter.

(** ** Feature set operations (util.js, lines 311-344) *)

Module Features.

Section FilterFeatures.

(** The expressions of the style specification and the filter compiler
    [createFilter] of the mapbox library, which returns a predicate. *)
Variable expression : Type.
Variable all : expression.
Variable createFilter : list expression -> Feature -> bool.

(** [inverse !== r] on two booleans *)
Definition strict_neq (a b : bool) : bool := negb (Bool.eqb a b).

(** [inverse] is [None] when the argument is omitted. *)
Definition filterFeatures (features : list Feature) (filter : list expression)
    (inverse : option bool) : list Feature :=
  let inverse := match inverse with Some b => b | None => true end in
  let filter_function := createFilter ([all] ++ filter)%list in
  fold_left
    (fun (new_features : list Feature) feature =>
       if strict_neq inverse (filter_function feature)
       then (new_features ++ [feature])%list
       else new_features)
    features [].

(** [filter] is [None] for [null] or [false]. *)
Definition matchFeatures (features : list Feature)
    (filter : option (list expression)) : list Feature :=
  match filter with
  | None => features
  | Some filter => filterFeatures features filter (Some false)
  end.

End FilterFeatures.

End Features.

(** ** Extent of the features of a source (util.js, lines 385-427) *)

Module Extent.

(** A slot of [bounds] is [None] while it is [null]. *)
Definition Bounds : Type :=
  option number * option number * option number * option number.

Definition min (x : option number) (y : number) : number :=
  match x with
  | None => y
  | Some x => if num_lt y x then y else x
  end.

Definition max (x : option number) (y : number) : number :=
  match x with
  | None => y
  | Some x => if num_lt x y then y else x
  end.

Definition update_bounds (bounds : Bounds) (pt : coordinate) : Bounds :=
  let '(b0, b1, b2, b3) := bounds in
  let '(x, y) := pt in
  (Some (min b0 x), Some (min b1 y), Some (max b2 x), Some (max b3 y)).

(** The coordinate pairs that the loop visits in one geometry, in order. *)
Definition visited (geom : Geometry) : list coordinate :=
  match geom with
  | Point c => [c]
  | LineString cs => cs
  | Polygon rings => concat rings
  | MultiLineString lines => concat lines
  | OtherGeometry _ => []
  end.

Definition visit_geometry (bounds : Bounds) (geom : Geometry) : Bounds :=
  match geom with
  | Point c => update_bounds bounds c
  | LineString cs => fold_left update_bounds cs bounds
  | Polygon rings | MultiLineString rings =>
      fold_left (fun bounds ring => fold_left update_bounds ring bounds)
                rings bounds
  | OtherGeometry _ => bounds
  end.

(** A layer of a vector source; [features] may be missing. *)
Record layer := { features : option (list Feature) }.

Record mapSource := { layers : list layer }.

(** [mapSource.layers[0]] is [undefined] for a source without layers, and
    reading [layer.features] then raises. *)
Definition getFeaturesExtent (mapSource : mapSource) : completion Bounds :=
  match layers mapSource with
  | [] => Throw TypeError
  | layer :: _ =>
      let bounds := (None, None, None, None) in
      match features layer with
      | Some features =>
          Normal (fold_left
                    (fun bounds feature => visit_geometry bounds (geometry feature))
                    features bounds)
      | None => Normal bounds
      end
  end.

End Extent.

(** ** UTM projections (util.js, lines 437-459) *)

Module Projections.

(** The registry of the projection library, reached through [p4.defs]:
    [p4.defs(name, def)] defines and [p4.defs(name)] looks up. It is
    modelled by the list of the definitions made, in call order; a
    definition is a string, or [None] for [undefined]. *)
Definition registry : Type := list (string * option string).

(** [p4.defs(name, def)] *)
Definition defs_set (p4 : registry) (name : string) (def : option string)
  : registry :=
  (p4 ++ [(name, def)])%list.

(** [p4.defs(name)]: the latest definition of [name] *)
Definition defs_get (p4 : registry) (name : string) : option string :=
  match List.find (fun e => String.eqb e.1 name) (rev p4) with
  | Some e => e.2
  | None => None
  end.

(** [north === 'north' ? a : b] *)
Definition if_north {A} (north : string) (a b : A) : A :=
  if String.eqb north "north" then a else b.

Definition epsg_code (utm_zone : Z) (north : string) : Z :=
  32600 + utm_zone + if_north north 0 100.

Definition proj_id (utm_zone : Z) (north : string) : string :=
  "EPSG:" +:+ pretty (epsg_code utm_zone north).

Definition proj_alias (utm_zone : Z) (north : string) : string :=
  "UTM" +:+ pretty utm_zone +:+ if_north north "N" "S".

Definition proj_string (utm_zone : Z) (north : string) : string :=
  "+proj=utm +zone=" +:+ pretty utm_zone +:+ " +" +:+ north
    +:+ "+datum=WGS84 +units=m +no_defs".

(** The body of the inner loop. *)
Definition configure_zone (p4 : registry) (utm_zone : Z) (north : string)
  : registry :=
  let p4 := defs_set p4 (proj_id utm_zone north)
                     (Some (proj_string utm_zone north)) in
  defs_set p4 (proj_alias utm_zone north)
           (defs_get p4 (proj_id utm_zone north)).

Definition configureProjections (p4 : registry) : registry :=
  fold_left
    (fun p4 utm_zone =>
       fold_left (fun p4 north => configure_zone p4 utm_zone north)
                 ["north"; "south"] p4)
    (seqZ 1 60) p4.

End Projections.

(** ** Catalog visibility and z-order (util.js, lines 548-616) *)

Module Catalog.

Record SourceRef := { mapSourceName : string; layerName : string }.

(** A layer of a map source. *)
Record SubLayer := { name : string; on : bool }.

Record MapSource := { zIndex : Z; layers : list SubLayer }.

(** A node of the catalog: a group has [children], a layer has none. *)
Record CatalogNode := { children : option (list string); src : list SourceRef }.

(** An entry of the result. Its [zIndex] is what [getZValue] returned: a
    number, or [None] for [undefined]. *)
Module Entry.
Record t := { zIndex : option Z; layer : CatalogNode }.
End Entry.

(** The catalog object: its keys in [Object.keys] order; the value of a key
    is a node, or [None] when it is [null]. *)
Definition catalog : Type := list (string * option CatalogNode).

(** What [mapSources[name]] reads: a map source of [mapSources], or else a
    member inherited from [Object.prototype], or else [undefined]. *)
Inductive member :=
| Own (map_source : MapSource)
| Inherited
| Undefined.

Definition get_member (mapSources : gmap string MapSource) (name : string)
    : member :=
  match mapSources !! name with
  | Some map_source => Own map_source
  | None => if inherited name then Inherited else Undefined
  end.

(** The inner loop: [is_on = (is_on && layer.on)] for each layer of the
    source named as the reference says. *)
Definition sublayers_on (src : SourceRef) (layers : list SubLayer)
    (is_on : bool) : bool :=
  fold_left
    (fun is_on layer =>
       if String.eqb (name layer) (layerName src)
       then is_on && on layer
       else is_on)
    layers is_on.

(** The outer loop, which leaves with [false] at a name that reads as
    [undefined]. An inherited member is truthy and has no [layers]:
    [for (... of map_source.layers)] raises on it. *)
Fixpoint isLayerOn_loop (mapSources : gmap string MapSource)
    (srcs : list SourceRef) (is_on : bool) : completion bool :=
  match srcs with
  | [] => Normal is_on
  | src :: srcs' =>
      match get_member mapSources (mapSourceName src) with
      | Own map_source =>
          isLayerOn_loop mapSources srcs'
            (sublayers_on src (layers map_source) is_on)
      | Inherited => Throw TypeError
      | Undefined => Normal false
      end
  end.

(** [mapSources] is [None] while it is [undefined]. *)
Definition isLayerOn (mapSources : option (gmap string MapSource))
    (layer : CatalogNode) : completion bool :=
  match mapSources with
  | None => Normal false
  | Some mapSources => isLayerOn_loop mapSources (src layer) true
  end.

(** [layer.src[0]] is [undefined] for an empty list, and reading a property
    of [undefined] raises; so does indexing an [undefined] [mapSources], and
    so does reading [zIndex] of a map source that reads as [undefined]. An
    inherited member has no [zIndex]: the result is [undefined]. *)
Definition getZValue (mapSources : option (gmap string MapSource))
    (layer : CatalogNode) : completion (option Z) :=
  match src layer with
  | [] => Throw TypeError
  | src :: _ =>
      match mapSources with
      | None => Throw TypeError
      | Some mapSources =>
          match get_member mapSources (mapSourceName src) with
          | Own map_source => Normal (Some (zIndex map_source))
          | Inherited => Normal None
          | Undefined => Throw TypeError
          end
      end
  end.

(** [Array.prototype.sort(comparefn)]. The language leaves the algorithm to
    the engine; it is modelled by the stable insertion: each element in turn
    moves left past every [tmp] of the sorted prefix with
    [comparefn(element, tmp) < 0], and stays behind the others, so that
    elements which the comparison does not put first keep the order of the
    array. The prefix is kept reversed, its last element first. *)
Fixpoint insert_element {A} (comparefn : A -> A -> Z) (element : A)
    (rev_prefix : list A) : list A :=
  match rev_prefix with
  | [] => [element]
  | tmp :: rest =>
      if comparefn element tmp <? 0
      then tmp :: insert_element comparefn element rest
      else element :: tmp :: rest
  end.

Definition Array_sort {A} (comparefn : A -> A -> Z) (a : list A) : list A :=
  rev (fold_left (fun rev_prefix element =>
                    insert_element comparefn element rev_prefix) a []).

(** [a > b] on two [zIndex] values: false when one of them is [undefined] *)
Definition zIndex_gt (a b : option Z) : bool :=
  match a, b with
  | Some a, Some b => a >? b
  | _, _ => false
  end.

(** [(a.zIndex > b.zIndex) ? -1 : 1] *)
Definition by_zIndex (a b : Entry.t) : Z :=
  if zIndex_gt (Entry.zIndex a) (Entry.zIndex b) then -1 else 1.

(** [typeof(node.children) === 'undefined'] *)
Definition no_children (node : CatalogNode) : bool :=
  match children node with None => true | Some _ => false end.

Fixpoint collect_layers (mapSources : option (gmap string MapSource))
    (entries : catalog) (layers : list Entry.t) : completion (list Entry.t) :=
  match entries with
  | [] => Normal layers
  | (key, None) :: entries' => collect_layers mapSources entries' layers
  | (key, Some node) :: entries' =>
      if no_children node then
        is_on ← isLayerOn mapSources node;
        if is_on : bool then
          z ← getZValue mapSources node;
          collect_layers mapSources entries'
            (layers ++ [{| Entry.zIndex := z; Entry.layer := node |}])%list
        else collect_layers mapSources entries' layers
      else collect_layers mapSources entries' layers
  end.

Definition getLayersByZOrder (catalog : catalog)
    (mapSources : option (gmap string MapSource)) : completion (list Entry.t) :=
  layers ← collect_layers mapSources catalog [];
  Normal (Array_sort by_zIndex layers).

End Catalog.

(** ** Unit conversion (util.js, lines 492-526) *)

Module Units.

(** Number literals of the table, as the nearest binary64 values. *)
Definition lit_0_3048 : number := S754_finite false 5490788665690109 (-54).
Definition lit_0_9144 : number := S754_finite false 8236182998535163 (-53).
Definition lit_1609_347 : number := S754_finite false 7077982958505689 (-42).
Definition lit_0_0254 : number := S754_finite false 7321051554253478 (-58).
Definition lit_1 : number := S754_finite false 4503599627370496 (-52).
Definition lit_1000 : number := S754_finite false 8796093022208000 (-43).
Definition lit_20_11684 : number := S754_finite false 5662387070491993 (-48).
Definition lit_63_63 : number := S754_finite false 8955126384049521 (-47).
Definition lit_100 : number := S754_finite false 7036874417766400 (-46).

Definition EQUIVALENT_METERS : gmap string number :=
  <["ft" := lit_0_3048]>
  (<["yd" := lit_0_9144]>
  (<["mi" := lit_1609_347]>
  (<["in" := lit_0_0254]>
  (<["m" := lit_1]>
  (<["km" := lit_1000]>
  (<["ch" := lit_20_11684]>
  (<["a" := lit_63_63]>
  (<["h" := lit_100]> ∅)))))))).

(** The closed enumeration of unit symbols. *)
Definition unit_symbols : list string :=
  ["ft"; "yd"; "mi"; "in"; "m"; "km"; "ch"; "a"; "h"].

(** [length * EQUIVALENT_METERS[srcUnits] / EQUIVALENT_METERS[destUnits]] *)
Definition convertLength (length : number) (srcUnits destUnits : string) : number :=
  js_div (js_mul length (ToNumber_opt (EQUIVALENT_METERS !! srcUnits)))
         (ToNumber_opt (EQUIVALENT_METERS !! destUnits)).

(** [Math.pow(x, 2)]. The language fixes the special cases ([NaN] for
    [NaN]) and leaves the rest to the engine; the rounded product [x * x],
    which engines return for the exponent 2, is taken. *)
Definition Math_pow2 (x : number) : number := js_mul x x.

(** [area * Math.pow(EQUIVALENT_METERS[srcUnits], 2)
          / Math.pow(EQUIVALENT_METERS[destUnits], 2)] *)
Definition convertArea (area : number) (srcUnits destUnits : string) : number :=
  js_div (js_mul area (Math_pow2 (ToNumber_opt (EQUIVALENT_METERS !! srcUnits))))
         (Math_pow2 (ToNumber_opt (EQUIVALENT_METERS !! destUnits))).

Definition metersLengthToUnits (meters : number) (units : string) : number :=
  convertLength meters "m" units.

Definition metersAreaToUnits (meters : number) (units : string) : number :=
  convertArea meters "m" units.

End Units.

(** ** Catalog paths (util.js, lines 159-177) *)

Module Paths.

(** [s.split(sep)] for a one-character separator: the first component and
    the components after it. The result of [split] is never empty. *)
Fixpoint split (sep : ascii) (s : string) : string * list string :=
  match s with
  | EmptyString => (EmptyString, [])
  | String c s' =>
      let '(h, t) := split sep s' in
      if Ascii.eqb c sep then (EmptyString, h :: t) else (String c h, t)
  end.

(** [path] is [None] for [null]. *)
Definition getMapSourceName (path : option string) : string :=
  match path with
  | None => ""
  | Some path => (split "/" path).1
  end.

(** [c.shift()] drops the first component, [c.join('/')] joins the rest. *)
Definition getLayerName (path : option string) : string :=
  match path with
  | None => ""
  | Some path =>
      let c := split "/" path in
      String.concat "/" c.2
  end.

End Paths.

(** ** Booleans of configuration files (util.js, lines 34-41) *)

Module Booleans.

(** Upper case of a code unit, as the [i] flag of a regular expression
    folds it: only the letters [a] to [z] change. *)
Definition to_upper (c : ascii) : ascii :=
  let n := N_of_ascii c in
  if (97 <=? n)%N && (n <=? 122)%N then ascii_of_N (n - 32) else c.

(** The pattern matches at the start of [s], case ignored. *)
Fixpoint matches_here (pattern s : string) : bool :=
  match pattern, s with
  | EmptyString, _ => true
  | String p pattern', String c s' =>
      Ascii.eqb (to_upper c) (to_upper p) && matches_here pattern' s'
  | String _ _, EmptyString => false
  end.

(** [s.match(/pattern/i)] is not [null], for a pattern of plain
    characters: the pattern matches somewhere in [s]. *)
Fixpoint regexp_match_i (pattern s : string) : bool :=
  matches_here pattern s ||
  match s with
  | EmptyString => false
  | String _ s' => regexp_match_i pattern s'
  end.

(** [boolString === '1'], where [boolString] is a [String] object and the
    other side a primitive: the two are of different types. *)
Definition String_object_strict_eq (boolString primitive : string) : bool :=
  false.

Section ParseBoolean.

Variable NumberToString : number -> string.

(** [def] is [undefined] when the argument is omitted. *)
Definition parseBoolean (bool def : scalar) : scalar :=
  let def := match def with SUndefined => SBool false | _ => def end in
  match bool with
  | SUndefined | SNull => def
  | _ =>
      let boolString := Filter.ToString NumberToString bool in
      if regexp_match_i "true" boolString then SBool true
      else if String_object_strict_eq boolString "1" then SBool true
      else if regexp_match_i "on" boolString then SBool true
      else SBool false
  end.

End ParseBoolean.

End Booleans.

(** ** Comparison of objects (util.js, lines 105-149) *)

Module Objects.

(** A value: a scalar, or a plain object given by its own keys in
    [Object.keys] order. *)
#[local] Set Warnings "-register-all".
Inductive value :=
| VPrim (v : scalar)
| VObject (o : list (string * value)).

Definition typeof (v : value) : string :=
  match v with
  | VPrim SUndefined => "undefined"
  | VPrim SNull => "object"
  | VPrim (SBool _) => "boolean"
  | VPrim (SNumber _) => "number"
  | VPrim (SString _) => "string"
  | VObject _ => "object"
  end.

(** The key of the index [i] of a string. *)
Definition index_key (i : nat) : string := pretty (N.of_nat i).

(** [Object.keys(v)]: raises on [undefined] and [null]; the indices of a
    string; nothing for a boolean or a number. *)
Definition Object_keys (v : value) : completion (list string) :=
  match v with
  | VPrim SUndefined => Throw TypeError
  | VPrim SNull => Throw TypeError
  | VPrim (SString s) => Normal (map index_key (seq 0 (String.length s)))
  | VPrim _ => Normal []
  | VObject o => Normal (o.*1)
  end.

Fixpoint lookup_own (key : string) (o : list (string * value)) : value :=
  match o with
  | [] => VPrim SUndefined
  | (k, v) :: o' => if String.eqb k key then v else lookup_own key o'
  end.

(** The character of a string at an index key, or [undefined]. *)
Fixpoint char_at_key (key : string) (i : nat) (s : string) : value :=
  match s with
  | EmptyString => VPrim SUndefined
  | String c s' =>
      if String.eqb (index_key i) key then VPrim (SString (String c EmptyString))
      else char_at_key key (S i) s'
  end.

(** [v[key]] for a value that is neither [undefined] nor [null]. *)
Definition get_value (v : value) (key : string) : value :=
  match v with
  | VObject o => lookup_own key o
  | VPrim (SString s) =>
      if String.eqb key "length"
      then VPrim (SNumber (binary_normalize 53 1024
                             (Z.of_nat (String.length s)) 0 false))
      else char_at_key key 0 s
  | VPrim _ => VPrim SUndefined
  end.

(** [a !== b] where [b] is a string or a number. *)
Definition strict_neq_prim (a : value) (b : scalar) : bool :=
  match a with
  | VPrim a => negb (strict_eq a b)
  | VObject _ => true
  end.

(** [v == null] *)
Definition loose_null (v : value) : bool :=
  match v with
  | VPrim SUndefined | VPrim SNull => true
  | _ => false
  end.

(** What one pass of the body of a loop does. *)
Inductive outcome :=
| Return (b : bool)
| Raise (e : error)
| Diverge
| Continue.

(** The cases ['object'] and [default] of the switch, which the cases
    ['string'] and ['number'] fall into. [recurse] is the deep call. *)
Definition case_object (recurse : value -> value -> option (completion bool))
    (a_val b_val : value) (deep : bool) : outcome :=
  if loose_null b_val && negb (loose_null a_val) then Return true
  else if deep then
    match recurse a_val b_val with
    | None => Diverge
    | Some (Throw e) => Raise e
    | Some (Normal true) => Return true
    | Some (Normal false) => Return true
    end
  else Return true.

Definition switch_b_type (recurse : value -> value -> option (completion bool))
    (objA objB : value) (deep : bool) (key : string) : outcome :=
  let b_val := get_value objB key in
  let a_val := get_value objA key in
  match b_val with
  | VPrim SUndefined => Return true
  | VPrim (SString _ as b) | VPrim (SNumber _ as b) =>
      if strict_neq_prim a_val b then Return true
      else case_object recurse a_val b_val deep
  | VPrim SNull | VObject _ => case_object recurse a_val b_val deep
  | VPrim (SBool _) => Return true
  end.

(** [for (const key of keys) body] followed by [rest]. *)
Fixpoint for_of (body : string -> outcome) (keys : list string)
    (rest : option (completion bool)) : option (completion bool) :=
  match keys with
  | [] => rest
  | key :: keys' =>
      match body key with
      | Return b => Some (Normal b)
      | Raise e => Some (Throw e)
      | Diverge => None
      | Continue => for_of body keys' rest
      end
  end.

(** [deep] stands for [deep === true]. The result is [None] when the
    recursion is deeper than [fuel]. *)
Fixpoint objectsDiffer (fuel : nat) (objA objB : value) (deep : bool)
  : option (completion bool) :=
  match fuel with
  | O => None
  | S fuel' =>
      match Object_keys objA with
      | Throw e => Some (Throw e)
      | Normal a_keys =>
          match Object_keys objB with
          | Throw e => Some (Throw e)
          | Normal b_keys =>
              for_of
                (switch_b_type (fun a b => objectsDiffer fuel' a b true)
                               objA objB deep)
                a_keys
                (for_of
                   (fun key =>
                      if negb (existsb (String.eqb key) a_keys)
                      then Return true else Continue)
                   b_keys
                   (Some (Normal false)))
          end
      end
  end.

End Objects.

(** ** Editing the properties of features (util.js, lines 354-367 and
       638-661) *)

Module Edits.

(** [feature.properties] *)
Definition feature_properties (feature : Feature) : gmap string scalar :=
  properties feature.

Section Edits.

Variable StringToNumber : string -> number.
Variable NumberToString : number -> string.
(** [parseFloat] on the text of a value. *)
Variable ParseFloat : string -> number.

(** [Object.assign({}, feature.properties, properties)]: the keys of the
    second object win. [Object.assign] stores each key by assignment, and an
    assignment to ["__proto__"] on the new object goes to the setter that it
    inherits from [Object.prototype], which stores no key. Given [null], that
    setter removes the prototype of the new object, and the setter with it:
    a ["__proto__"] of the second object is then stored as a key. *)
Definition assign_properties (old properties : gmap string scalar)
  : gmap string scalar :=
  let new_props := delete "__proto__" (properties ∪ old) in
  match old !! "__proto__", properties !! "__proto__" with
  | Some SNull, Some value => <["__proto__" := value]> new_props
  | _, _ => new_props
  end.

Fixpoint changeFeatures_loop (filter : Filter.filter)
    (properties : gmap string scalar) (features new_features : list Feature)
  : completion (list Feature) :=
  match features with
  | [] => Normal new_features
  | feature :: features' =>
      m ← Filter.featureMatch StringToNumber NumberToString feature filter;
      if m : bool then
        let new_props :=
          assign_properties (feature_properties feature) properties in
        changeFeatures_loop filter properties features'
          (new_features ++ [{| geometry := geometry feature;
                               properties := new_props |}])%list
      else
        changeFeatures_loop filter properties features'
          (new_features ++ [feature])%list
  end.

Definition changeFeatures (features : list Feature) (filter : Filter.filter)
    (properties : gmap string scalar) : completion (list Feature) :=
  changeFeatures_loop filter properties features [].

(** The body of the switch: the value to store. *)
Definition transform_value (kind value : scalar) : scalar :=
  if strict_eq kind (SString "string") then
    SString (Filter.ToString NumberToString value)
  else if strict_eq kind (SString "number") then
    SNumber (ParseFloat (Filter.ToString NumberToString value))
  else value.

(** The inner loop over the keys of [transforms], on the properties of one
    feature. The read and the assignment are those of own keys: they are
    what the code does for every key that is not a member of
    [Object.prototype]. *)
Definition transform_properties (transforms : list (string * scalar))
    (props : gmap string scalar) : gmap string scalar :=
  fold_left
    (fun props '(prop, kind) =>
       let value := get props prop in
       <[prop := transform_value kind value]> props)
    transforms props.

(** [transforms] is [None] when it is not an object; [null], which is one
    for [typeof], has no key to loop over and is [Some []]. The features of
    the array are changed in place and the array is returned; they are
    taken to be distinct objects. *)
Definition transformFeatures (transforms : option (list (string * scalar)))
    (features : list Feature) : list Feature :=
  match transforms with
  | None => features
  | Some transforms =>
      (fun feature =>
         {| geometry := geometry feature;
            properties :=
              transform_properties transforms (feature_properties feature) |})
      <$> features
  end.

End Edits.

End Edits.

(** * Properties *)

(** ** Arithmetic of binary64 values *)

Module DoubleFacts.

Ltac std_Z :=
  repeat match goal with
  | |- context [IntDef.Z.min ?a ?b] => change (IntDef.Z.min a b) with (Z.min a b)
  | |- context [IntDef.Z.max ?a ?b] => change (IntDef.Z.max a b) with (Z.max a b)
  | |- context [IntDef.Z.sub ?a ?b] => change (IntDef.Z.sub a b) with (Z.sub a b)
  | |- context [IntDef.Z.add ?a ?b] => change (IntDef.Z.add a b) with (Z.add a b)
  | |- context [IntDef.Z.div_eucl ?a ?b] =>
      change (IntDef.Z.div_eucl a b) with (Z.div_eucl a b)
  | |- context [IntDef.Z.shiftl ?a ?b] =>
      change (IntDef.Z.shiftl a b) with (Z.shiftl a b)
  end.

Lemma js_mul_nan_r x : js_mul x NaN = NaN.
Proof. by destruct x. Qed.

Lemma js_mul_nan_l x : js_mul NaN x = NaN.
Proof. by destruct x. Qed.

Lemma js_div_nan_r x : js_div x NaN = NaN.
Proof. by destruct x. Qed.

Lemma js_div_nan_l x : js_div NaN x = NaN.
Proof. by destruct x. Qed.

(** A canonical mantissa has its exponent fixed by its number of digits. *)
Lemma bounded_inv m e :
  bounded 53 1024 m e = true ->
  Z.max (Zpos (digits2_pos m) + e - 53) (-1074) = e /\ e <= 971.
Proof.
  unfold bounded, canonical_mantissa, fexp, emin. intros H.
  apply andb_true_iff in H as [H1 H2].
  apply Z.eqb_eq in H1. apply Z.leb_le in H2. lia.
Qed.

Lemma shr_fexp_exact m e :
  bounded 53 1024 m e = true ->
  shr_fexp 53 1024 (Zpos m) e loc_Exact
  = (Build_shr_record (Zpos m) false false, e).
Proof.
  intros H. destruct (bounded_inv _ _ H) as [Hc He].
  unfold shr_fexp, fexp, emin. cbn [Zdigits2 shr_record_of_loc].
  replace (Z.max (Z.pos (digits2_pos m) + e - 53) (3 - 1024 - 53) - e)
    with 0 by lia.
  reflexivity.
Qed.

(** Rounding a value that is already a double gives it back. *)
Lemma round_exact s m e :
  bounded 53 1024 m e = true ->
  binary_round_aux 53 1024 s (Zpos m) e loc_Exact = S754_finite s m e.
Proof.
  intros H. destruct (bounded_inv _ _ H) as [Hc He].
  unfold binary_round_aux. rewrite (shr_fexp_exact m e H).
  cbn [shr_m loc_of_shr_record round_nearest_even].
  rewrite (shr_fexp_exact m e H). cbn [shr_m].
  replace (e <=? 1024 - 53) with true by (symmetry; apply Z.leb_le; lia).
  reflexivity.
Qed.

Definition one : number := S754_finite false 4503599627370496 (-52).

Lemma mul_one_finite s m e :
  bounded 53 1024 m e = true ->
  js_mul (S754_finite s m e) one = S754_finite s m e.
Proof.
  intros H. destruct (bounded_inv _ _ H) as [Hc He].
  unfold js_mul, one, SFmul. rewrite xorb_false_r.
  rewrite Pos.mul_comm.
  let t := eval lazy in (Pos.iter xO m 52%positive) in
    change (Pos.mul 4503599627370496 m) with t.
  unfold binary_round_aux.
  unfold shr_fexp at 1. unfold Zdigits2 at 1. cbn [digits2_pos].
  unfold fexp at 1. unfold emin.
  repeat rewrite Pos2Z.inj_succ.
  replace (_ - (e + -52)) with 52 by lia.
  cbn [shr_record_of_loc shr SpecFloat.iter_pos shr_1 orb].
  cbn [shr_m loc_of_shr_record round_nearest_even].
  replace (e + -52 + 52) with e by lia.
  rewrite (shr_fexp_exact m e H). cbn [shr_m].
  replace (e <=? 1024 - 53) with true by (symmetry; apply Z.leb_le; lia).
  reflexivity.
Qed.

Lemma div_eucl_exact a b : 0 < b -> Z.div_eucl (a * b) b = (a, 0).
Proof.
  intros Hb.
  assert (E : Z.div_eucl (a * b) b = ((a * b) / b, (a * b) mod b)).
  { unfold Z.div, Z.modulo. destruct (Z.div_eucl (a * b) b); reflexivity. }
  rewrite E, Z.div_mul, Z.mod_mul by lia. reflexivity.
Qed.

(** The quotient computed for a division by 1: exact, with one spare bit
    for a normal dividend. *)
Lemma div_core_one m e :
  bounded 53 1024 m e = true ->
  SFdiv_core_binary 53 1024 (Zpos m) e 4503599627370496 (-52) =
    if Z.pos (digits2_pos m) + e - 54 <? -1074
    then (Zpos m, e, loc_Exact)
    else (Zpos m~0, e - 1, loc_Exact).
Proof.
  intros H. destruct (bounded_inv _ _ H) as [Hc He].
  unfold SFdiv_core_binary, fexp, emin. cbn [Zdigits2 digits2_pos Pos.succ].
  std_Z.
  destruct (Z.ltb_spec (Z.pos (digits2_pos m) + e - 54) (-1074)) as [Hlt | Hge].
  - assert (e = -1074) by lia. subst e.
    replace (Z.min _ _) with (-1074) by lia.
    change (-1074 - -52 - -1074) with 52.
    rewrite Z.shiftl_mul_pow2 by lia.
    change (Z.pos 4503599627370496) with (2 ^ 52).
    rewrite div_eucl_exact by lia.
    reflexivity.
  - replace (Z.min _ _) with (e - 1) by lia.
    replace (e - -52 - (e - 1)) with 53 by lia.
    rewrite Z.shiftl_mul_pow2 by lia.
    change (Z.pos 4503599627370496) with (2 ^ 52).
    replace (Z.pos m * 2 ^ 53) with (Z.pos m~0 * 2 ^ 52)
      by (change (2 ^ 53) with (2 * 2 ^ 52); lia).
    rewrite div_eucl_exact by lia.
    reflexivity.
Qed.

Lemma div_one_finite s m e :
  bounded 53 1024 m e = true ->
  js_div (S754_finite s m e) one = S754_finite s m e.
Proof.
  intros H. destruct (bounded_inv _ _ H) as [Hc He].
  unfold js_div, one, SFdiv. rewrite xorb_false_r.
  rewrite (div_core_one m e H).
  destruct (Z.ltb_spec (Z.pos (digits2_pos m) + e - 54) (-1074)) as [Hlt | Hge].
  - apply round_exact, H.
  - unfold binary_round_aux.
    unfold shr_fexp at 1. unfold Zdigits2 at 1. cbn [digits2_pos].
    unfold fexp at 1. unfold emin.
    rewrite Pos2Z.inj_succ.
    replace (_ - (e - 1)) with 1 by lia.
    cbn [shr_record_of_loc shr SpecFloat.iter_pos shr_1 orb].
    cbn [shr_m loc_of_shr_record round_nearest_even].
    replace (e - 1 + 1) with e by lia.
    rewrite (shr_fexp_exact m e H). cbn [shr_m].
    replace (e <=? 1024 - 53) with true by (symmetry; apply Z.leb_le; lia).
    reflexivity.
Qed.

Lemma mul_one (x : number) : is_double x = true -> js_mul x one = x.
Proof.
  destruct x as [s | s | | s m e]; intros H; try reflexivity.
  - unfold js_mul, one; cbn. by rewrite xorb_false_r.
  - unfold js_mul, one; cbn. by rewrite xorb_false_r.
  - by apply mul_one_finite.
Qed.

Lemma div_one (x : number) : is_double x = true -> js_div x one = x.
Proof.
  destruct x as [s | s | | s m e]; intros H; try reflexivity.
  - unfold js_div, one; cbn. by rewrite xorb_false_r.
  - unfold js_div, one; cbn. by rewrite xorb_false_r.
  - by apply div_one_finite.
Qed.

Lemma num_eq_refl (x : number) : is_nan x = false -> num_eq x x = true.
Proof.
  destruct x as [s | s | | s m e]; intros H; try discriminate H;
    unfold num_eq, SFeqb, SFcompare.
  - reflexivity.
  - by destruct s.
  - rewrite Z.compare_refl.
    change (Pos.compare_cont Eq m m) with (Pos.compare m m).
    rewrite Pos.compare_refl. by destruct s.
Qed.

(** *** The order of [<]

    On numbers other than [NaN], [<] is the lexicographic order of a key
    made of the class of the number (negative infinity, negative, zero,
    positive, positive infinity), its exponent and its mantissa. *)

Definition key (x : number) : Z * Z * Z :=
  match x with
  | S754_nan => (0, 0, 0)
  | S754_zero _ => (0, 0, 0)
  | S754_infinity true => (-2, 0, 0)
  | S754_infinity false => (2, 0, 0)
  | S754_finite true m e => (-1, - e, Zneg m)
  | S754_finite false m e => (1, e, Zpos m)
  end.

Definition key_lt (a b : Z * Z * Z) : Prop :=
  a.1.1 < b.1.1 \/
  (a.1.1 = b.1.1 /\ (a.1.2 < b.1.2 \/ (a.1.2 = b.1.2 /\ a.2 < b.2))).

Ltac compare_cases :=
  repeat match goal with
  | |- context [Pos.compare_cont Eq ?m ?n] =>
      change (Pos.compare_cont Eq m n) with (Pos.compare m n);
      destruct (Pos.compare_spec m n)
  | |- context [Z.compare ?m ?n] => destruct (Z.compare_spec m n)
  end.

Lemma num_lt_key a b :
  is_nan a = false -> is_nan b = false ->
  (num_lt a b = true <-> key_lt (key a) (key b)).
Proof.
  destruct a as [sa | sa | | sa ma ea], b as [sb | sb | | sb mb eb];
    intros Ha Hb; try discriminate;
    try destruct sa; try destruct sb;
    unfold num_lt, SFltb, SFcompare, key, key_lt; cbn [fst snd];
    compare_cases; cbn [CompOpp];
    (split; [intros; try discriminate; lia | intros; try reflexivity; lia]).
Qed.

Lemma num_eq_key a b :
  is_nan a = false -> is_nan b = false ->
  (num_eq a b = true <-> key a = key b).
Proof.
  destruct a as [sa | sa | | sa ma ea], b as [sb | sb | | sb mb eb];
    intros Ha Hb; try discriminate;
    try destruct sa; try destruct sb;
    unfold num_eq, SFeqb, SFcompare, key; cbn [fst snd];
    compare_cases; cbn [CompOpp];
    (split; [intros; try discriminate; f_equal; try f_equal; lia
            | intros [= ]; try reflexivity; lia]).
Qed.

Lemma num_lt_irrefl a : num_lt a a = false.
Proof.
  destruct (is_nan a) eqn:Ha; [by destruct a |].
  apply not_true_is_false. rewrite (num_lt_key a a Ha Ha).
  unfold key_lt. lia.
Qed.

Lemma num_lt_trans a b c :
  is_nan a = false -> is_nan b = false -> is_nan c = false ->
  num_lt a b = true -> num_lt b c = true -> num_lt a c = true.
Proof.
  intros Ha Hb Hc.
  rewrite (num_lt_key a b), (num_lt_key b c), (num_lt_key a c) by done.
  unfold key_lt. lia.
Qed.

(** Of two numbers that are not [NaN], one is below the other or they are
    equal; so what is not below [b], nor [b] below [c], is not below [c]. *)
Lemma num_lt_neg_trans a b c :
  is_nan a = false -> is_nan b = false -> is_nan c = false ->
  num_lt a b = false -> num_lt b c = false -> num_lt a c = false.
Proof.
  intros Ha Hb Hc Hab Hbc. apply not_true_is_false. intros Hac.
  apply not_true_iff_false in Hab, Hbc.
  rewrite (num_lt_key a b) in Hab by done.
  rewrite (num_lt_key b c) in Hbc by done.
  rewrite (num_lt_key a c) in Hac by done.
  unfold key_lt in *. lia.
Qed.

Lemma num_lt_none_eq a b :
  is_nan a = false -> is_nan b = false ->
  num_lt a b = false -> num_lt b a = false -> num_eq a b = true.
Proof.
  intros Ha Hb Hab Hba.
  apply not_true_iff_false in Hab, Hba.
  rewrite (num_lt_key a b) in Hab by done.
  rewrite (num_lt_key b a) in Hba by done.
  rewrite (num_eq_key a b) by done.
  unfold key_lt in *.
  destruct (key a) as [[a1 a2] a3], (key b) as [[b1 b2] b3]. cbn in *.
  f_equal; [f_equal |]; lia.
Qed.

End DoubleFacts.

Module UnitsFacts.
Import Units DoubleFacts.

(** The literals of the table are the doubles nearest to the decimals of
    the source. *)
#[local] Set Warnings "-inexact-float".
Lemma literals_are_nearest_doubles :
  [ Prim2SF 0.3048; Prim2SF 0.9144; Prim2SF 1609.347; Prim2SF 0.0254;
    Prim2SF 1; Prim2SF 1000; Prim2SF 20.11684; Prim2SF 63.63; Prim2SF 100 ]%float
  = [ lit_0_3048; lit_0_9144; lit_1609_347; lit_0_0254;
      lit_1; lit_1000; lit_20_11684; lit_63_63; lit_100 ].
Proof. vm_compute. reflexivity. Qed.
#[local] Set Warnings "+inexact-float".

Lemma lookup_unknown (u : string) :
  u ∉ unit_symbols -> EQUIVALENT_METERS !! u = None.
Proof.
  unfold unit_symbols, EQUIVALENT_METERS. intros Hu.
  repeat (rewrite lookup_insert_ne; [| intros <-; apply Hu; set_solver]).
  apply lookup_empty.
Qed.

Lemma lookup_known (u : string) :
  u ∈ unit_symbols -> exists n, EQUIVALENT_METERS !! u = Some n /\ is_nan n = false.
Proof.
  unfold unit_symbols. intros Hu.
  repeat (apply elem_of_cons in Hu; destruct Hu as [-> | Hu];
          [eexists; split; [vm_compute; reflexivity | reflexivity] |]).
  inversion Hu.
Qed.

Lemma not_unit_furlong : "furlong" ∉ unit_symbols.
Proof.
  unfold unit_symbols. intros H.
  repeat (apply elem_of_cons in H as [H | H]; [discriminate H |]).
  inversion H.
Defined.

(** C3, as stated, fails: with a unit outside the table the conversions
    complete and return [NaN]; nothing is raised. *)
Lemma convert_unknown_unit_counterexample :
  ("furlong" ∉ unit_symbols) /\
  is_nan (convertLength lit_1 "furlong" "m") = true /\
  is_nan (convertArea lit_1 "m" "furlong") = true.
Proof. split; [exact not_unit_furlong | split; vm_compute; reflexivity]. Qed.

(** C3 (amended): for every number and every pair of unit symbols of which
    the source or the destination is outside the nine-symbol table,
    [convertLength] and [convertArea] return [NaN] (the table lookup gives
    [undefined], which the arithmetic turns into [NaN]); no error is raised. *)
Theorem convert_unknown_unit_nan (x : number) (srcUnits destUnits : string) :
  srcUnits ∉ unit_symbols \/ destUnits ∉ unit_symbols ->
  convertLength x srcUnits destUnits = NaN /\
  convertArea x srcUnits destUnits = NaN.
Proof.
  unfold convertLength, convertArea, Math_pow2.
  intros [H | H]; rewrite (lookup_unknown _ H); cbn [ToNumber_opt].
  - rewrite !js_mul_nan_r, !js_div_nan_l. done.
  - rewrite js_mul_nan_r, !js_div_nan_r. done.
Qed.

Lemma convert_unknown_unit_nan_witness :
  ("furlong" ∉ unit_symbols \/ "m" ∉ unit_symbols) /\
  convertLength lit_1 "furlong" "m" = NaN /\
  convertArea lit_1 "furlong" "m" = NaN.
Proof.
  split; [left; exact not_unit_furlong |].
  apply (convert_unknown_unit_nan lit_1 "furlong" "m").
  left; exact not_unit_furlong.
Defined.

(** The scenario of the specification: [convertArea(1, "km", "m")] is
    [1000000]. *)
Example convertArea_km_m :
  convertArea lit_1 "km" "m" = Prim2SF 1000000%float.
Proof. vm_compute. reflexivity. Qed.

Definition lit_7 : number := S754_finite false 7881299347898368 (-50).

(** C8, as stated, fails: [7 * 0.3048 / 0.3048] is [6.999999999999999],
    the product having been rounded before the division. *)
Lemma convertLength_identity_counterexample :
  "ft" ∈ unit_symbols /\
  convertLength lit_7 "ft" "ft" = S754_finite false 7881299347898367 (-50) /\
  num_eq (convertLength lit_7 "ft" "ft") lit_7 = false.
Proof.
  split; [unfold unit_symbols; set_solver |].
  split; vm_compute; reflexivity.
Qed.

(** Zero and the infinities: the values that no rounding can touch. *)
Definition is_finite_nonzero (x : number) : bool :=
  match x with S754_finite _ _ _ => true | _ => false end.

(** C8 (amended): [convertLength(x, u, u) === x] holds exactly for the unit
    [m] and every number [x] other than [NaN], and for every unit of the
    table when [x] is a zero or an infinity. *)
Theorem convertLength_identity_exact (x : number) (u : string) :
  u ∈ unit_symbols ->
  is_double x = true ->
  is_nan x = false ->
  u = "m" \/ is_finite_nonzero x = false ->
  num_eq (convertLength x u u) x = true.
Proof.
  intros Hu Hx Hnan [-> | Hz].
  - unfold convertLength.
    change (ToNumber_opt (EQUIVALENT_METERS !! "m")) with one.
    rewrite (mul_one x Hx), (div_one x Hx). by apply num_eq_refl.
  - unfold unit_symbols in Hu.
    destruct x as [s | s | | s m e]; try discriminate;
      repeat (apply elem_of_cons in Hu as [-> | Hu];
              [by destruct s |]); inversion Hu.
Qed.

Lemma convertLength_identity_exact_witness :
  num_eq (convertLength lit_7 "m" "m") lit_7 = true.
Proof.
  apply (convertLength_identity_exact lit_7 "m").
  - unfold unit_symbols.
    do 4 apply list_elem_of_further. apply list_elem_of_here.
  - reflexivity.
  - reflexivity.
  - left. reflexivity.
Defined.

End UnitsFacts.

(** ** The filter evaluator *)

Module FilterFacts.
Import Filter.

Definition lit_5 : number := S754_finite false 5629499534213120 (-50).

Section Facts.

Variable StringToNumber : string -> number.
Variable NumberToString : number -> string.

Local Abbreviation inRange := (inRange StringToNumber).
Local Abbreviation js_lt := (js_lt StringToNumber).
Local Abbreviation clause_value := (clause_value StringToNumber NumberToString).
Local Abbreviation featureMatch_loop := (featureMatch_loop StringToNumber NumberToString).
Local Abbreviation featureMatch := (featureMatch StringToNumber NumberToString).

(** A bound is given when it is neither [undefined] nor [null]. *)
Definition given (v : scalar) : bool :=
  match v with SUndefined | SNull => false | _ => true end.

Lemma inRange_both_given value min max :
  given min = true -> given max = true ->
  inRange value min max = js_lt min value && js_lt value max.
Proof. by destruct min, max. Qed.

Lemma inRange_min_absent value min max :
  given min = false -> given max = true ->
  inRange value min max = js_lt value max.
Proof. by destruct min, max. Qed.

Lemma inRange_max_absent value min max :
  given min = true -> given max = false ->
  inRange value min max = js_lt min value.
Proof. by destruct min, max. Qed.

(** With no bound at all the first test on [min === null] answers, and
    compares the value with [null]. *)
Lemma inRange_both_absent value min max :
  given min = false -> given max = false ->
  inRange value min max = js_lt value SNull.
Proof. by destruct min, max. Qed.

(** The loop of a [match: 'any'] filter whose entries all evaluate: it
    answers whether some entry evaluates to true. *)
Lemma featureMatch_loop_any feature (entries : filter) :
  Forall (fun kd => exists b,
            clause_value (get (properties feature) kd.1) kd.2 = Normal b)
         entries ->
  featureMatch_loop feature false entries =
    Normal (existsb
              (fun kd =>
                 match clause_value (get (properties feature) kd.1) kd.2 with
                 | Normal b => b
                 | Throw _ => false
                 end)
              entries).
Proof.
  induction 1 as [| [k d] entries [b Hb] _ IH]; [reflexivity |].
  cbn [featureMatch_loop existsb fst snd] in *. rewrite Hb.
  cbn. destruct b; cbn; [reflexivity | exact IH].
Qed.

Lemma lookup_key_unique (filter : filter) key d :
  NoDup (filter.*1) -> (key, d) ∈ filter -> lookup_key key filter = Some d.
Proof.
  induction filter as [| [k' d'] filter IH]; intros Hnd Hin;
    [inversion Hin |].
  cbn in Hnd. apply NoDup_cons in Hnd as [Hk' Hnd]. cbn.
  apply elem_of_cons in Hin as [[= -> ->] | Hin].
  - by rewrite String.eqb_refl.
  - destruct (String.eqb_spec k' key) as [-> | _]; [| by apply IH].
    destruct Hk'. apply list_elem_of_fmap. by exists (key, d).
Qed.

(** Where the feature has no property [match] equal to ['any'], a
    [match: 'any'] filter whose entries all evaluate matches iff one of its
    clauses, the keys other than [match], evaluates to true. *)
Lemma featureMatch_any_clauses feature (filter : filter) :
  match_is_any filter = true ->
  NoDup (filter.*1) ->
  Forall (fun kd => exists b,
            clause_value (get (properties feature) kd.1) kd.2 = Normal b)
         filter ->
  strict_eq (SString "any") (get (properties feature) "match") = false ->
  (featureMatch feature filter = Normal true <->
   exists key def, (key, def) ∈ filter /\ key <> "match" /\
     clause_value (get (properties feature) key) def = Normal true).
Proof.
  intros Hany Hnd Hev Hprop. unfold Filter.featureMatch. rewrite Hany.
  rewrite (featureMatch_loop_any feature filter Hev). split.
  - intros [= Hex]. apply existsb_exists in Hex as ([key def] & Hin & Hv).
    apply list_elem_of_In in Hin. cbn [fst snd] in Hv.
    exists key, def. split; [exact Hin |].
    rewrite Forall_forall in Hev. destruct (Hev _ Hin) as [b Hb].
    cbn [fst snd] in Hb. rewrite Hb in Hv. subst b. split; [| exact Hb].
    intros ->. unfold match_is_any in Hany.
    rewrite (lookup_key_unique _ _ _ Hnd Hin) in Hany.
    destruct def as [[v |] |]; try discriminate Hany.
    destruct v as [| | | | s]; try discriminate Hany.
    cbn in Hany. apply String.eqb_eq in Hany as ->.
    change (Normal (strict_eq (SString "any")
                              (get (properties feature) "match"))
            = Normal true) in Hb.
    congruence.
  - intros (key & def & Hin & _ & Hv). f_equal.
    apply existsb_exists. exists (key, def).
    split; [by apply list_elem_of_In |]. cbn [fst snd]. by rewrite Hv.
Qed.

End Facts.

Definition any_only : filter := [("match", FValue (JScalar (SString "any")))].

Definition feature_match_any : Feature :=
  {| geometry := Point (S754_zero false, S754_zero false);
     properties := {["match" := SString "any"]} |}.

(** C1 at the failing input: the filter [{match: 'any'}] has mode Any and
    no clause, yet it matches the feature whose property [match] is
    ['any'], because the loop evaluates the key [match] as a clause. *)
Theorem featureMatch_any_empty_matches StringToNumber NumberToString :
  match_is_any any_only = true /\
  List.filter (fun kd => negb (String.eqb kd.1 "match")) any_only = [] /\
  featureMatch StringToNumber NumberToString feature_match_any any_only
  = Normal true.
Proof. repeat split; vm_compute; reflexivity. Qed.

Definition range_unbounded : filter :=
  [("a", FClause {| type := SString "range"; min := SUndefined;
                    max := SUndefined; value := JScalar SUndefined |})].

Definition feature_a_5 : Feature :=
  {| geometry := Point (S754_zero false, S754_zero false);
     properties := {["a" := SNumber lit_5]} |}.

(** C6 at the failing input: a range clause without bounds is false on the
    value 5, by [5 < null]; the final [return true] is never reached. *)
Theorem inRange_unbounded_rejects StringToNumber NumberToString :
  inRange StringToNumber (SNumber lit_5) SUndefined SUndefined = false /\
  clause_value StringToNumber NumberToString (SNumber lit_5)
    (FClause {| type := SString "range"; min := SUndefined;
                max := SUndefined; value := JScalar SUndefined |})
  = Normal false /\
  featureMatch StringToNumber NumberToString feature_a_5 range_unbounded
  = Normal false.
Proof. repeat split; vm_compute; reflexivity. Qed.

End FilterFacts.

(** ** Feature set operations *)

Module FeaturesFacts.
Import Features.

Section Facts.

Variable expression : Type.
Variable all : expression.
Variable createFilter : list expression -> Feature -> bool.

Lemma filterFeatures_fold (p : Feature -> bool) (features acc : list Feature) :
  fold_left
    (fun (new_features : list Feature) feature =>
       if p feature then (new_features ++ [feature])%list else new_features)
    features acc
  = (acc ++ List.filter p features)%list.
Proof.
  revert acc. induction features as [| f features IH]; intros acc; cbn.
  - by rewrite app_nil_r.
  - rewrite IH. destruct (p f); [| reflexivity].
    by rewrite <- app_assoc.
Qed.

Lemma filterFeatures_filter features filter inverse :
  filterFeatures expression all createFilter features filter inverse =
  List.filter
    (fun f => strict_neq (match inverse with Some b => b | None => true end)
                         (createFilter (all :: filter) f))
    features.
Proof. unfold filterFeatures. by rewrite filterFeatures_fold. Qed.

(** C9: without the [inverse] argument, [filterFeatures] keeps exactly the
    features on which the compiled filter predicate is false, in their
    order; this is the result of [inverse = true]. *)
Theorem filterFeatures_default_excludes (features : list Feature)
    (filter : list expression) :
  filterFeatures expression all createFilter features filter None
  = List.filter (fun f => negb (createFilter (all :: filter) f)) features /\
  filterFeatures expression all createFilter features filter None
  = filterFeatures expression all createFilter features filter (Some true) /\
  forall f,
    In f (filterFeatures expression all createFilter features filter None) <->
    In f features /\ createFilter (all :: filter) f = false.
Proof.
  assert (E : filterFeatures expression all createFilter features filter None
              = List.filter (fun f => negb (createFilter (all :: filter) f))
                            features).
  { rewrite filterFeatures_filter. apply filter_ext. intros f.
    unfold strict_neq. by destruct (createFilter (all :: filter) f). }
  split; [exact E |]. split.
  - by rewrite !filterFeatures_filter.
  - intros f. rewrite E, filter_In, negb_true_iff. reflexivity.
Qed.

End Facts.

End FeaturesFacts.

(** ** Catalog visibility and z-order *)

Module CatalogFacts.
Import Catalog.

(** What one reference asks of the map sources: its source exists and
    every layer of that source with the referenced name is on. *)
Definition ref_on (m : gmap string MapSource) (ref : SourceRef) : Prop :=
  exists source,
    m !! mapSourceName ref = Some source /\
    forall l, l ∈ layers source -> name l = layerName ref -> on l = true.

(** A reference that reads an inherited member: its name is none of the map
    sources and is a member of [Object.prototype]. *)
Definition names_inherited (m : gmap string MapSource) (ref : SourceRef)
    : Prop :=
  m !! mapSourceName ref = None /\ inherited (mapSourceName ref) = true.

(** Whether [isLayerOn] returns [true]. *)
Definition returns_true (mapSources : option (gmap string MapSource))
    (layer : CatalogNode) : bool :=
  match isLayerOn mapSources layer with
  | Normal true => true
  | _ => false
  end.

Lemma sublayers_on_false ref ls : sublayers_on ref ls false = false.
Proof.
  unfold sublayers_on. induction ls as [| l ls IH]; [reflexivity |].
  cbn. by destruct (String.eqb (name l) (layerName ref)).
Qed.

Lemma sublayers_on_true ref ls :
  sublayers_on ref ls true = true <->
  forall l, l ∈ ls -> name l = layerName ref -> on l = true.
Proof.
  unfold sublayers_on. induction ls as [| l ls IH]; cbn.
  - split; [intros _ l Hl; inversion Hl | done].
  - destruct (String.eqb_spec (name l) (layerName ref)) as [E | NE]; cbn.
    + destruct (on l) eqn:Hon.
      * rewrite IH. split.
        -- intros H l' Hl'. apply elem_of_cons in Hl' as [-> | Hl']; auto.
        -- intros H l' Hl'. apply H. by apply elem_of_cons; right.
      * fold (sublayers_on ref ls false). rewrite sublayers_on_false.
        split; [discriminate |]. intros H.
        rewrite <- Hon. apply H; [apply elem_of_cons; by left | exact E].
    + rewrite IH. split.
      * intros H l' Hl'. apply elem_of_cons in Hl' as [-> | Hl']; auto.
      * intros H l' Hl'. apply H. by apply elem_of_cons; right.
Qed.

Lemma get_member_own m name source :
  m !! name = Some source -> get_member m name = Own source.
Proof. unfold get_member. by intros ->. Qed.

Lemma get_member_own_inv m name source :
  get_member m name = Own source -> m !! name = Some source.
Proof.
  unfold get_member. destruct (m !! name); [congruence |].
  by destruct (inherited name).
Qed.

Lemma get_member_inherited m name :
  get_member m name = Inherited <-> m !! name = None /\ inherited name = true.
Proof.
  unfold get_member. destruct (m !! name); [by split; [| intros [? _]] |].
  destruct (inherited name); by split; [| intros [_ ?]].
Qed.

Lemma get_member_undefined m name :
  get_member m name = Undefined <-> m !! name = None /\ inherited name = false.
Proof.
  unfold get_member. destruct (m !! name); [by split; [| intros [? _]] |].
  destruct (inherited name); by split; [| intros [_ ?]].
Qed.

(** Once [is_on] is false the loop no longer returns [true]. *)
Lemma isLayerOn_loop_false m srcs : isLayerOn_loop m srcs false <> Normal true.
Proof.
  induction srcs as [| ref srcs IH]; [discriminate |]. cbn.
  destruct (get_member m (mapSourceName ref)); [| discriminate | discriminate].
  by rewrite sublayers_on_false.
Qed.

Lemma isLayerOn_loop_true m srcs :
  isLayerOn_loop m srcs true = Normal true <->
  forall ref, ref ∈ srcs -> ref_on m ref.
Proof.
  induction srcs as [| ref srcs IH]; cbn.
  - split; [intros _ r Hr; inversion Hr | done].
  - destruct (get_member m (mapSourceName ref)) as [source | |] eqn:Hsrc.
    + apply get_member_own_inv in Hsrc.
      destruct (sublayers_on ref (layers source) true) eqn:Hsub.
      * rewrite IH. pose proof (proj1 (sublayers_on_true _ _) Hsub) as Hall.
        split.
        -- intros H r Hr. apply elem_of_cons in Hr as [-> | Hr]; [| by auto].
           exists source. by split.
        -- intros H r Hr. apply H. by apply elem_of_cons; right.
      * split; [intros E; by apply isLayerOn_loop_false in E |].
        intros H. destruct (H ref) as (source' & Hs' & Hall).
        { apply elem_of_cons; by left. }
        rewrite Hsrc in Hs'. injection Hs' as <-.
        pose proof (proj2 (sublayers_on_true _ _) Hall). congruence.
    + apply get_member_inherited in Hsrc as [Hnone _].
      split; [discriminate |]. intros H.
      destruct (H ref) as (source' & Hs' & _).
      { apply elem_of_cons; by left. }
      congruence.
    + apply get_member_undefined in Hsrc as [Hnone _].
      split; [discriminate |]. intros H.
      destruct (H ref) as (source' & Hs' & _).
      { apply elem_of_cons; by left. }
      congruence.
Qed.

(** The loop raises only at a reference that reads an inherited member. *)
Lemma isLayerOn_loop_throws m srcs is_on e :
  isLayerOn_loop m srcs is_on = Throw e ->
  exists ref, ref ∈ srcs /\ names_inherited m ref.
Proof.
  revert is_on. induction srcs as [| ref srcs IH]; intros is_on; cbn;
    [discriminate |].
  destruct (get_member m (mapSourceName ref)) as [source | |] eqn:Hsrc.
  - intros E. destruct (IH _ E) as (r & Hr & Hinh).
    exists r. split; [by apply elem_of_cons; right | exact Hinh].
  - intros _. exists ref. split; [apply elem_of_cons; by left |].
    by apply get_member_inherited.
  - discriminate.
Qed.

Lemma isLayerOn_throws mapSources layer e :
  isLayerOn mapSources layer = Throw e ->
  exists m ref, mapSources = Some m /\ ref ∈ src layer /\ names_inherited m ref.
Proof.
  destruct mapSources as [m |]; cbn; [| discriminate].
  intros E. destruct (isLayerOn_loop_throws _ _ _ _ E) as (ref & Hin & Hinh).
  by exists m, ref.
Qed.

(** Where no reference reads an inherited member, [isLayerOn] returns. *)
Lemma isLayerOn_returns mapSources layer :
  (forall m ref, mapSources = Some m -> ref ∈ src layer ->
                 ~ names_inherited m ref) ->
  exists is_on, isLayerOn mapSources layer = Normal is_on.
Proof.
  intros H. destruct (isLayerOn mapSources layer) as [b | e] eqn:E;
    [by exists b |].
  destruct (isLayerOn_throws _ _ _ E) as (m & ref & Hm & Hin & Hinh).
  by destruct (H m ref).
Qed.

Lemma isLayerOn_true mapSources layer :
  isLayerOn mapSources layer = Normal true <->
  exists m, mapSources = Some m /\ forall ref, ref ∈ src layer -> ref_on m ref.
Proof.
  destruct mapSources as [m |]; cbn.
  - rewrite isLayerOn_loop_true. split; [by eauto |].
    by intros (m' & [= <-] & H).
  - split; [discriminate |]. by intros (m & [=] & _).
Qed.

(** The scenario of the specification: the one referenced layer is on. *)
Example isLayerOn_A_l1 :
  isLayerOn
    (Some {["A" := {| zIndex := 1; layers := [{| name := "l1"; on := true |}] |}]})
    {| children := None;
       src := [{| mapSourceName := "A"; layerName := "l1" |}] |}
  = Normal true.
Proof. vm_compute. reflexivity. Qed.

(** A reference named as a member of [Object.prototype] reads that member
    from map sources that have no source of the name, and the call raises;
    [getZValue] reads [undefined] from it. *)
Example isLayerOn_constructor :
  isLayerOn (Some ∅)
    {| children := None;
       src := [{| mapSourceName := "constructor"; layerName := "l1" |}] |}
  = Throw TypeError /\
  getZValue (Some ∅)
    {| children := None;
       src := [{| mapSourceName := "constructor"; layerName := "l1" |}] |}
  = Normal None.
Proof. split; vm_compute; reflexivity. Qed.

Definition ms_no_sublayer : gmap string MapSource :=
  {["A" := {| zIndex := 1; layers := [] |}]}.

Definition layer_A_l1 : CatalogNode :=
  {| children := None;
     src := [{| mapSourceName := "A"; layerName := "l1" |}] |}.

(** C2, as stated, fails: a reference whose map source exists but has no
    layer of the referenced name leaves the layer on. *)
Lemma isLayerOn_counterexample :
  isLayerOn (Some ms_no_sublayer) layer_A_l1 = Normal true /\
  ms_no_sublayer !! "A" = Some {| zIndex := 1; layers := [] |} /\
  ~ (exists l, l ∈ layers {| zIndex := 1; layers := [] |} /\
               name l = "l1" /\ on l = true).
Proof.
  split; [vm_compute; reflexivity |].
  split; [vm_compute; reflexivity |].
  intros (l & Hl & _). inversion Hl.
Qed.

(** C2 (amended): [isLayerOn] returns true iff [mapSources] is present and,
    for every reference of [layer.src], the named map source is present and
    every layer of it bearing the referenced name has [on = true] (a name
    that no layer of the source bears turns nothing off). An absent
    [mapSources] gives false. A reference to an absent map source gives
    false where no reference of the layer reads a member inherited from
    [Object.prototype]; the call raises only at such a reference. *)
Theorem isLayerOn_iff (mapSources : option (gmap string MapSource))
    (layer : CatalogNode) :
  (isLayerOn mapSources layer = Normal true <->
   exists m, mapSources = Some m /\
             forall ref, ref ∈ src layer -> ref_on m ref) /\
  (forall m ref, mapSources = Some m -> ref ∈ src layer ->
                 m !! mapSourceName ref = None ->
                 (forall r, r ∈ src layer -> ~ names_inherited m r) ->
                 isLayerOn mapSources layer = Normal false) /\
  (forall e, isLayerOn mapSources layer = Throw e ->
             exists m ref, mapSources = Some m /\ ref ∈ src layer /\
                           names_inherited m ref) /\
  (mapSources = None -> isLayerOn mapSources layer = Normal false).
Proof.
  split; [apply isLayerOn_true |]. split; [| split].
  - intros m ref -> Hin Hnone Hplain.
    destruct (isLayerOn_returns (Some m) layer) as ([|] & E).
    { intros m' r [= <-]. apply Hplain. }
    + apply isLayerOn_true in E as (m' & [= <-] & H).
      destruct (H ref Hin) as (source & Hs & _). congruence.
    + exact E.
  - apply isLayerOn_throws.
  - by intros ->.
Qed.

(** The layers that the loop of [getLayersByZOrder] is to keep: the nodes
    of the catalog, in key order, that have no children and are on. *)
Definition on_layers (catalog : catalog)
    (mapSources : option (gmap string MapSource)) : list CatalogNode :=
  List.filter (fun node => no_children node && returns_true mapSources node)
              (omap snd catalog).

(** On a layer that is on and has a reference, [getZValue] finds the map
    source of the first reference. *)
Lemma getZValue_on mapSources node ref refs :
  isLayerOn mapSources node = Normal true ->
  src node = ref :: refs ->
  exists m source,
    mapSources = Some m /\ m !! mapSourceName ref = Some source /\
    getZValue mapSources node = Normal (Some (zIndex source)).
Proof.
  intros Hon Hsrc. apply isLayerOn_true in Hon as (m & -> & Hall).
  destruct (Hall ref) as (source & Hs & _).
  { rewrite Hsrc. apply elem_of_cons; by left. }
  exists m, source. repeat split; [exact Hs |].
  unfold getZValue. by rewrite Hsrc, (get_member_own _ _ _ Hs).
Qed.

(** Whether [isLayerOn] raises on a node of the catalog without children. *)
Definition raises_in (entries : catalog)
    (mapSources : option (gmap string MapSource)) (e : error) : Prop :=
  exists key node, (key, Some node) ∈ entries /\ no_children node = true /\
                   isLayerOn mapSources node = Throw e.

(** The loop of [getLayersByZOrder]: where every layer that is on has a
    reference, it raises only if [isLayerOn] does, and otherwise appends
    the layers that are on, in key order, each with the defined [zIndex]
    that [getZValue] returns for it. *)
Lemma collect_layers_ok mapSources (entries : catalog) (acc : list Entry.t) :
  (forall key node, (key, Some node) ∈ entries ->
     no_children node = true -> isLayerOn mapSources node = Normal true ->
     src node <> []) ->
  (exists e, raises_in entries mapSources e /\
             collect_layers mapSources entries acc = Throw e) \/
  exists new,
    collect_layers mapSources entries acc = Normal (acc ++ new)%list /\
    Entry.layer <$> new = on_layers entries mapSources /\
    Forall (fun e => getZValue mapSources (Entry.layer e)
                     = Normal (Entry.zIndex e)) new /\
    Forall (fun e => is_Some (Entry.zIndex e)) new.
Proof.
  revert acc. induction entries as [| [key [node |]] entries IH]; intros acc H.
  - right. exists []. by rewrite app_nil_r.
  - assert (H' : forall key node, (key, Some node) ∈ entries ->
                   no_children node = true ->
                   isLayerOn mapSources node = Normal true -> src node <> []).
    { intros k n Hin. apply (H k n). by apply elem_of_cons; right. }
    assert (Hleft : forall acc',
              (exists e, raises_in entries mapSources e /\
                         collect_layers mapSources entries acc' = Throw e) ->
              exists e, raises_in ((key, Some node) :: entries) mapSources e /\
                        collect_layers mapSources entries acc' = Throw e).
    { intros acc' (e & (k & n & Hin & Hleaf & Hn) & E). exists e.
      split; [| exact E]. exists k, n.
      split; [by apply elem_of_cons; right | by split]. }
    unfold on_layers, returns_true.
    cbn [collect_layers omap list_omap snd List.filter].
    destruct (no_children node) eqn:Hleaf; cbn [andb].
    2:{ destruct (IH acc H') as [Hl | Hr]; [left; by apply Hleft | by right]. }
    destruct (isLayerOn mapSources node) as [[|] | e] eqn:Hon; cbn.
    + destruct (src node) as [| ref refs] eqn:Hsrc.
      { destruct (H key node); auto. apply elem_of_cons; by left. }
      destruct (getZValue_on _ _ _ _ Hon Hsrc) as (m & source & _ & _ & Hz).
      rewrite Hz. cbn.
      destruct (IH (acc ++ [{| Entry.zIndex := Some (zIndex source);
                               Entry.layer := node |}])%list H')
        as [Hl | (new & Hnew & Hlayers & Hall & Hdef)];
        [left; by apply Hleft |].
      right.
      exists ({| Entry.zIndex := Some (zIndex source); Entry.layer := node |}
                :: new).
      split; [by rewrite Hnew, <- app_assoc |].
      split; [cbn; by rewrite Hlayers |].
      split; (constructor; [| done]); [exact Hz | by eexists].
    + destruct (IH acc H') as [Hl | Hr]; [left; by apply Hleft | by right].
    + left. exists e. split; [| reflexivity]. exists key, node.
      split; [apply elem_of_cons; by left | by split].
  - destruct (IH acc) as [(e & (k & n & Hin & Hleaf & Hn) & E) | Hr].
    + intros k n Hin. apply (H k n). by apply elem_of_cons; right.
    + left. exists e. split; [| exact E]. exists k, n.
      split; [by apply elem_of_cons; right | by split].
    + by right.
Qed.

(** *** The sort *)

Lemma insert_element_perm {A} (comparefn : A -> A -> Z) element rev_prefix :
  insert_element comparefn element rev_prefix ≡ₚ element :: rev_prefix.
Proof.
  induction rev_prefix as [| tmp rest IH]; cbn; [reflexivity |].
  destruct (comparefn element tmp <? 0); [| reflexivity].
  rewrite IH. apply Permutation_swap.
Qed.

Lemma Array_sort_perm {A} (comparefn : A -> A -> Z) (a : list A) :
  Array_sort comparefn a ≡ₚ a.
Proof.
  unfold Array_sort. rewrite <- Permutation_rev.
  assert (G : forall acc,
             fold_left (fun rev_prefix element =>
                          insert_element comparefn element rev_prefix) a acc
             ≡ₚ (a ++ acc)%list).
  { induction a as [| x a IH]; intros acc; cbn; [reflexivity |].
    rewrite IH, insert_element_perm. by rewrite Permutation_middle. }
  by rewrite G, app_nil_r.
Qed.

(** The order on entries of a defined [zIndex]. *)
Definition ascending (a b : Entry.t) : Prop :=
  exists za zb, Entry.zIndex a = Some za /\ Entry.zIndex b = Some zb /\ za <= zb.
Definition descending (a b : Entry.t) : Prop :=
  exists za zb, Entry.zIndex a = Some za /\ Entry.zIndex b = Some zb /\ za >= zb.

Lemma insert_element_sorted element rev_prefix :
  is_Some (Entry.zIndex element) ->
  Forall (fun e => is_Some (Entry.zIndex e)) rev_prefix ->
  StronglySorted ascending rev_prefix ->
  StronglySorted ascending (insert_element by_zIndex element rev_prefix).
Proof.
  intros [z Hz] Hdef. induction 1 as [| tmp rest Hrest IH Htmp]; cbn.
  - repeat constructor.
  - apply Forall_cons in Hdef as [[zt Hzt] Hdef].
    unfold by_zIndex at 1. rewrite Hz, Hzt. cbn [zIndex_gt].
    destruct (Z.gtb_spec z zt) as [Hgt | Hle]; cbn.
    + constructor; [by apply IH |].
      rewrite insert_element_perm. constructor; [| exact Htmp].
      exists zt, z. repeat split; [done | done | lia].
    + constructor; [by constructor |].
      constructor; [exists z, zt; repeat split; [done | done | lia] |].
      eapply Forall_impl; [exact Htmp |].
      intros b (zt' & zb & Ht' & Hb & Hle'). exists z, zb.
      repeat split; [done | done |]. rewrite Hzt in Ht'. injection Ht' as <-. lia.
Qed.

Lemma StronglySorted_rev_descending (l : list Entry.t) :
  StronglySorted ascending l -> StronglySorted descending (rev l).
Proof.
  induction 1 as [| x l Hl IH Hx]; cbn; [constructor |].
  apply StronglySorted_app_2; [| exact IH | repeat constructor].
  intros a b Ha Hb. apply list_elem_of_singleton in Hb as ->.
  apply list_elem_of_In, in_rev, list_elem_of_In in Ha.
  rewrite Forall_forall in Hx. destruct (Hx a Ha) as (zx & za & Hzx & Hza & Hle).
  exists za, zx. repeat split; [done | done | lia].
Qed.

Lemma Array_sort_descending (a : list Entry.t) :
  Forall (fun e => is_Some (Entry.zIndex e)) a ->
  StronglySorted descending (Array_sort by_zIndex a).
Proof.
  intros Hdef. unfold Array_sort. apply StronglySorted_rev_descending.
  assert (G : forall acc,
             Forall (fun e => is_Some (Entry.zIndex e)) acc ->
             StronglySorted ascending acc ->
             StronglySorted ascending
               (fold_left (fun rev_prefix element =>
                             insert_element by_zIndex element rev_prefix) a acc)).
  { induction Hdef as [| x a Hx Ha IH]; intros acc Hacc Hs; cbn; [exact Hs |].
    apply IH; [| by apply insert_element_sorted].
    rewrite insert_element_perm. by constructor. }
  apply G; constructor.
Qed.

Lemma StronglySorted_lookup {A} (R : A -> A -> Prop) (l : list A) i j a b :
  StronglySorted R l -> (i < j)%nat ->
  l !! i = Some a -> l !! j = Some b -> R a b.
Proof.
  intros Hs. revert i j. induction Hs as [| x l Hl IH Hx]; intros i j Hij Hi Hj.
  - by rewrite lookup_nil in Hi.
  - destruct j as [| j]; [lia |]. cbn in Hj. destruct i as [| i].
    + cbn in Hi. injection Hi as <-.
      rewrite Forall_forall in Hx. eapply Hx, list_elem_of_lookup_2, Hj.
    + cbn in Hi. apply (IH i j); [lia | done | done].
Qed.

(** *** Examples *)

Definition ms_5_10 : gmap string MapSource :=
  {[ "A" := {| zIndex := 5; layers := [{| name := "l1"; on := true |}] |};
     "B" := {| zIndex := 10; layers := [{| name := "l2"; on := true |}] |} ]}.

Definition layer_of (source layer : string) : CatalogNode :=
  {| children := None;
     src := [{| mapSourceName := source; layerName := layer |}] |}.

Definition catalog_5_10 : catalog :=
  [ ("root", Some {| children := Some ["a"; "b"]; src := [] |});
    ("a", Some (layer_of "A" "l1"));
    ("b", Some (layer_of "B" "l2")) ].

Lemma catalog_5_10_srcs key node :
  (key, Some node) ∈ catalog_5_10 -> no_children node = true -> src node <> [].
Proof.
  unfold catalog_5_10. intros Hin Hleaf.
  repeat (apply elem_of_cons in Hin as [[= -> ->] | Hin];
          [try discriminate Hleaf; discriminate |]).
  inversion Hin.
Qed.

Lemma catalog_5_10_names m key node ref :
  (key, Some node) ∈ catalog_5_10 -> no_children node = true ->
  ref ∈ src node -> ~ names_inherited m ref.
Proof.
  unfold catalog_5_10. intros Hin Hleaf Href [_ Hinh].
  repeat (apply elem_of_cons in Hin as [[= -> ->] | Hin];
          [try discriminate Hleaf;
           apply list_elem_of_singleton in Href as ->; discriminate Hinh |]).
  inversion Hin.
Qed.

(** The scenario of the specification: with two layers on, of zIndex 5 and
    10, the one of zIndex 10 comes first. *)
Example getLayersByZOrder_5_10 :
  getLayersByZOrder catalog_5_10 (Some ms_5_10)
  = Normal [ {| Entry.zIndex := Some 10; Entry.layer := layer_of "B" "l2" |};
             {| Entry.zIndex := Some 5; Entry.layer := layer_of "A" "l1" |} ].
Proof. vm_compute. reflexivity. Qed.

(** Layers of one [zIndex] keep the order of the catalog. *)
Example getLayersByZOrder_ties :
  getLayersByZOrder
    [ ("a", Some (layer_of "A" "l1")); ("b", Some (layer_of "B" "l2")) ]
    (Some {[ "A" := {| zIndex := 5; layers := [] |};
             "B" := {| zIndex := 5; layers := [] |} ]})
  = Normal [ {| Entry.zIndex := Some 5; Entry.layer := layer_of "A" "l1" |};
             {| Entry.zIndex := Some 5; Entry.layer := layer_of "B" "l2" |} ].
Proof. vm_compute. reflexivity. Qed.

Definition catalog_no_src : catalog :=
  [("a", Some {| children := None; src := [] |})].

(** C4, as stated, fails: a node without children and without references
    is on under any loaded [mapSources], and [getZValue] raises on it, so
    [getLayersByZOrder] returns nothing. *)
Lemma getLayersByZOrder_counterexample :
  on_layers catalog_no_src (Some ∅) = [{| children := None; src := [] |}] /\
  getLayersByZOrder catalog_no_src (Some ∅) = Throw TypeError.
Proof. split; vm_compute; reflexivity. Qed.

(** C4 (amended): for every catalog and [mapSources] in which every node
    without children that is on carries a non-empty [src] list, and no
    reference of a node without children reads a member inherited from
    [Object.prototype], [getLayersByZOrder] returns exactly the catalog
    nodes without children for which [isLayerOn] returns true, each paired
    with its [getZValue], and the returned sequence is in descending order
    of [zIndex]: the [zIndex] of an entry is a number at least that of every
    later entry. *)
Theorem getLayersByZOrder_sorted (catalog : catalog)
    (mapSources : option (gmap string MapSource)) :
  (forall key node, (key, Some node) ∈ catalog ->
     no_children node = true -> isLayerOn mapSources node = Normal true ->
     src node <> []) ->
  (forall m key node ref, mapSources = Some m -> (key, Some node) ∈ catalog ->
     no_children node = true -> ref ∈ src node -> ~ names_inherited m ref) ->
  exists result,
    getLayersByZOrder catalog mapSources = Normal result /\
    Entry.layer <$> result ≡ₚ on_layers catalog mapSources /\
    Forall (fun e => getZValue mapSources (Entry.layer e)
                     = Normal (Entry.zIndex e)) result /\
    forall i j a b, (i < j)%nat ->
      result !! i = Some a -> result !! j = Some b ->
      exists za zb, Entry.zIndex a = Some za /\ Entry.zIndex b = Some zb /\
                    za >= zb.
Proof.
  intros H Hplain.
  destruct (collect_layers_ok mapSources catalog [] H)
    as [(e & (key & node & Hin & Hleaf & Hraise) & _)
       | (new & Hnew & Hlayers & Hall & Hdef)].
  { destruct (isLayerOn_throws _ _ _ Hraise) as (m & ref & Hm & Href & Hinh).
    by destruct (Hplain m key node ref). }
  exists (Array_sort by_zIndex new). unfold getLayersByZOrder.
  rewrite Hnew. cbn. split; [reflexivity |]. split; [| split].
  - by rewrite Array_sort_perm, Hlayers.
  - rewrite Forall_forall in Hall |- *. intros e He. apply Hall.
    by rewrite <- (Array_sort_perm by_zIndex new).
  - intros i j a b. apply (StronglySorted_lookup descending).
    by apply Array_sort_descending.
Qed.

Lemma getLayersByZOrder_sorted_witness :
  exists result,
    getLayersByZOrder catalog_5_10 (Some ms_5_10) = Normal result /\
    Entry.layer <$> result ≡ₚ on_layers catalog_5_10 (Some ms_5_10) /\
    Forall (fun e => getZValue (Some ms_5_10) (Entry.layer e)
                     = Normal (Entry.zIndex e)) result /\
    forall i j a b, (i < j)%nat ->
      result !! i = Some a -> result !! j = Some b ->
      exists za zb, Entry.zIndex a = Some za /\ Entry.zIndex b = Some zb /\
                    za >= zb.
Proof.
  apply (getLayersByZOrder_sorted catalog_5_10 (Some ms_5_10)).
  - intros key node Hin Hleaf _. exact (catalog_5_10_srcs key node Hin Hleaf).
  - intros m key node ref _. exact (catalog_5_10_names m key node ref).
Defined.

(** C10: in a catalog whose nodes without children all carry a non-empty
    [src] list, every such node on which [isLayerOn] returns true has the
    map source of its first reference in [mapSources], and [getZValue]
    returns the [zIndex] of that source; [getLayersByZOrder], which calls
    [getZValue] on those nodes only, never raises from that lookup: it
    returns, unless [isLayerOn] itself raises on a node. *)
Theorem getZValue_guarded (catalog : catalog)
    (mapSources : option (gmap string MapSource)) :
  (forall key node, (key, Some node) ∈ catalog ->
     no_children node = true -> src node <> []) ->
  (forall key node, (key, Some node) ∈ catalog ->
     no_children node = true -> isLayerOn mapSources node = Normal true ->
     exists ref refs m source,
       src node = ref :: refs /\ mapSources = Some m /\
       m !! mapSourceName ref = Some source /\
       getZValue mapSources node = Normal (Some (zIndex source))) /\
  ((exists result, getLayersByZOrder catalog mapSources = Normal result) \/
   (exists e key node,
      (key, Some node) ∈ catalog /\ no_children node = true /\
      isLayerOn mapSources node = Throw e /\
      getLayersByZOrder catalog mapSources = Throw e)).
Proof.
  intros H. split.
  - intros key node Hin Hleaf Hon.
    destruct (src node) as [| ref refs] eqn:Hsrc.
    { by destruct (H key node Hin Hleaf). }
    destruct (getZValue_on _ _ _ _ Hon Hsrc) as (m & source & Hm & Hs & Hz).
    by exists ref, refs, m, source.
  - unfold getLayersByZOrder.
    destruct (collect_layers_ok mapSources catalog [])
      as [(e & (key & node & Hin & Hleaf & Hraise) & E) | (new & Hnew & _)];
      [by eauto | |].
    + right. exists e, key, node. by rewrite E.
    + left. exists (Array_sort by_zIndex new). by rewrite Hnew.
Qed.

Lemma getZValue_guarded_witness :
  (forall key node, (key, Some node) ∈ catalog_5_10 ->
     no_children node = true -> isLayerOn (Some ms_5_10) node = Normal true ->
     exists ref refs m source,
       src node = ref :: refs /\ Some ms_5_10 = Some m /\
       m !! mapSourceName ref = Some source /\
       getZValue (Some ms_5_10) node = Normal (Some (zIndex source))) /\
  ((exists result, getLayersByZOrder catalog_5_10 (Some ms_5_10) = Normal result) \/
   (exists e key node,
      (key, Some node) ∈ catalog_5_10 /\ no_children node = true /\
      isLayerOn (Some ms_5_10) node = Throw e /\
      getLayersByZOrder catalog_5_10 (Some ms_5_10) = Throw e)).
Proof.
  apply (getZValue_guarded catalog_5_10 (Some ms_5_10)).
  exact catalog_5_10_srcs.
Defined.

End CatalogFacts.

(** ** UTM projections *)

Module ProjectionsFacts.
Import Projections.

Lemma defs_get_last (p4 : registry) name def :
  defs_get (defs_set p4 name def) name = def.
Proof.
  unfold defs_get, defs_set. rewrite rev_unit. cbn.
  by rewrite String.eqb_refl.
Qed.

(** One pass of the inner loop makes two definitions, whatever the registry
    held before. *)
Lemma configure_zone_calls (p4 : registry) utm_zone north :
  configure_zone p4 utm_zone north =
  (p4 ++ [ (proj_id utm_zone north, Some (proj_string utm_zone north));
           (proj_alias utm_zone north, Some (proj_string utm_zone north)) ])%list.
Proof.
  unfold configure_zone. rewrite defs_get_last.
  unfold defs_set. by rewrite <- app_assoc.
Qed.

(** The four definitions of a zone. *)
Definition zone_calls (utm_zone : Z) : registry :=
  [ (proj_id utm_zone "north", Some (proj_string utm_zone "north"));
    (proj_alias utm_zone "north", Some (proj_string utm_zone "north"));
    (proj_id utm_zone "south", Some (proj_string utm_zone "south"));
    (proj_alias utm_zone "south", Some (proj_string utm_zone "south")) ].

Lemma fold_left_append {A B} (f : list B -> A -> list B) (g : A -> list B) :
  (forall p x, f p x = (p ++ g x)%list) ->
  forall xs p, fold_left f xs p = (p ++ concat (map g xs))%list.
Proof.
  intros Hf. induction xs as [| x xs IH]; intros p; cbn.
  - by rewrite app_nil_r.
  - by rewrite IH, Hf, <- app_assoc.
Qed.

Lemma configureProjections_calls (p4 : registry) :
  configureProjections p4 = (p4 ++ concat (map zone_calls (seqZ 1 60)))%list.
Proof.
  unfold configureProjections. apply fold_left_append.
  intros p z. cbn [fold_left]. rewrite !configure_zone_calls.
  by rewrite <- app_assoc.
Qed.

(** The definitions made on an empty registry, in call order. *)
Definition calls : registry := configureProjections [].

Definition is_epsg_id (name : string) : bool := String.prefix "EPSG:" name.
Definition is_alias (name : string) : bool := String.prefix "UTM" name.

(** The four calls of a zone start at index [4 * (zone - 1)]; the two of
    the southern hemisphere follow the two of the northern one. *)
Definition call_index (utm_zone : Z) (north : string) : nat :=
  Z.to_nat (4 * (utm_zone - 1) + if_north north 0 2).

Definition zone_calls_ok (zone : Z) (north : string) : Prop :=
  calls !! call_index zone north
  = Some ("EPSG:" +:+ pretty (32600 + zone + if_north north 0 100),
          Some (proj_string zone north)) /\
  calls !! S (call_index zone north)
  = Some ("UTM" +:+ pretty zone +:+ if_north north "N" "S",
          Some (proj_string zone north)).

Lemma all_zone_calls_ok :
  Forall (fun zone => zone_calls_ok zone "north" /\ zone_calls_ok zone "south")
         (seqZ 1 60).
Proof.
  unfold zone_calls_ok. refine (bool_decide_unpack _ _). vm_compute. exact I.
Qed.

Lemma calls_names_NoDup : NoDup (calls.*1).
Proof. refine (bool_decide_unpack _ _). vm_compute. exact I. Qed.

(** C5: run on any registry, the builder appends the same 240 definitions:
    120 ids [EPSG:...] and 120 aliases [UTM...], no name twice; for every
    zone from 1 to 60 and each hemisphere the id is [EPSG:] followed by
    [32600 + zone] (north) or [32600 + zone + 100] (south), the alias is
    [UTM<zone>N] or [UTM<zone>S] and receives the definition of the id, and
    the calls are made zone by zone, north before south. *)
Theorem configureProjections_registers (p4 : registry) (zone : Z)
    (north : string) :
  1 <= zone <= 60 ->
  north = "north" \/ north = "south" ->
  configureProjections p4 = (p4 ++ calls)%list /\
  length calls = 240%nat /\
  length (List.filter is_epsg_id (calls.*1)) = 120%nat /\
  length (List.filter is_alias (calls.*1)) = 120%nat /\
  NoDup (calls.*1) /\
  zone_calls_ok zone north.
Proof.
  intros Hzone Hnorth.
  split; [unfold calls; by rewrite !configureProjections_calls |].
  split; [vm_compute; reflexivity |].
  split; [vm_compute; reflexivity |].
  split; [vm_compute; reflexivity |].
  split; [exact calls_names_NoDup |].
  assert (Hin : zone ∈ seqZ 1 60) by (apply elem_of_seqZ; lia).
  pose proof all_zone_calls_ok as Hall. rewrite Forall_forall in Hall.
  destruct (Hall zone Hin) as [Hn Hs]. by destruct Hnorth as [-> | ->].
Qed.

Lemma configureProjections_registers_witness :
  configureProjections [] = ([] ++ calls)%list /\
  length calls = 240%nat /\
  length (List.filter is_epsg_id (calls.*1)) = 120%nat /\
  length (List.filter is_alias (calls.*1)) = 120%nat /\
  NoDup (calls.*1) /\
  zone_calls_ok 15 "south".
Proof.
  apply (configureProjections_registers [] 15 "south").
  - lia.
  - right. reflexivity.
Defined.

(** Zone 15: [EPSG:32615] and [UTM15N], then [EPSG:32715] and [UTM15S]. *)
Example calls_zone_15 :
  (calls.*1) !! 56%nat = Some "EPSG:32615" /\
  (calls.*1) !! 57%nat = Some "UTM15N" /\
  (calls.*1) !! 58%nat = Some "EPSG:32715" /\
  (calls.*1) !! 59%nat = Some "UTM15S" /\
  calls !! 58%nat
  = Some ("EPSG:32715",
          Some "+proj=utm +zone=15 +south+datum=WGS84 +units=m +no_defs").
Proof. repeat split; vm_compute; reflexivity. Qed.

End ProjectionsFacts.

(** ** Extent of the features of a source *)

Module ExtentFacts.
Import Extent DoubleFacts.

(** The coordinate pairs visited over a feature collection, in order. *)
Definition all_visited (fs : list Feature) : list coordinate :=
  concat (map (fun f => visited (geometry f)) fs).

(** A source whose first layer holds the collection. *)
Definition source_of (fs : list Feature) : mapSource :=
  {| layers := [{| features := Some fs |}] |}.

(** Running minimum and maximum of one slot of [bounds]. *)
Definition fold_min (b : option number) (xs : list number) : option number :=
  fold_left (fun b x => Some (min b x)) xs b.

Definition fold_max (b : option number) (xs : list number) : option number :=
  fold_left (fun b x => Some (max b x)) xs b.

(** [a === b] on a slot: two [null]s, or two equal numbers. *)
Definition slot_eq (a b : option number) : bool :=
  match a, b with
  | None, None => true
  | Some x, Some y => num_eq x y
  | _, _ => false
  end.

Definition bounds_eq (a b : Bounds) : bool :=
  let '(a0, a1, a2, a3) := a in
  let '(b0, b1, b2, b3) := b in
  slot_eq a0 b0 && slot_eq a1 b1 && slot_eq a2 b2 && slot_eq a3 b3.

Definition not_nan (p : coordinate) : Prop :=
  is_nan p.1 = false /\ is_nan p.2 = false.

Lemma fold_rings (rings : list (list coordinate)) (b : Bounds) :
  fold_left (fun bounds ring => fold_left update_bounds ring bounds) rings b
  = fold_left update_bounds (concat rings) b.
Proof.
  revert b. induction rings as [| ring rings IH]; intros b; cbn;
    [reflexivity |].
  by rewrite fold_left_app, IH.
Qed.

Lemma visit_geometry_visited (b : Bounds) (geom : Geometry) :
  visit_geometry b geom = fold_left update_bounds (visited geom) b.
Proof. destruct geom; cbn; try reflexivity; apply fold_rings. Qed.

Lemma visit_features (fs : list Feature) (b : Bounds) :
  fold_left (fun bounds feature => visit_geometry bounds (geometry feature)) fs b
  = fold_left update_bounds (all_visited fs) b.
Proof.
  unfold all_visited. revert b.
  induction fs as [| f fs IH]; intros b; cbn; [reflexivity |].
  by rewrite fold_left_app, IH, visit_geometry_visited.
Qed.

Lemma getFeaturesExtent_visited (fs : list Feature) :
  getFeaturesExtent (source_of fs)
  = Normal (fold_left update_bounds (all_visited fs) (None, None, None, None)).
Proof. cbn. by rewrite visit_features. Qed.

(** The four slots evolve independently of each other. *)
Lemma update_bounds_slots (pts : list coordinate) b0 b1 b2 b3 :
  fold_left update_bounds pts (b0, b1, b2, b3)
  = (fold_min b0 (pts.*1), fold_min b1 (pts.*2),
     fold_max b2 (pts.*1), fold_max b3 (pts.*2)).
Proof.
  revert b0 b1 b2 b3. induction pts as [| [x y] pts IH]; intros; cbn;
    [reflexivity |].
  by rewrite IH.
Qed.

Lemma fold_min_Some r0 xs : exists r, fold_min (Some r0) xs = Some r.
Proof.
  revert r0. induction xs as [| x xs IH]; intros r0; cbn; [by eexists |].
  apply IH.
Qed.

Lemma fold_max_Some r0 xs : exists r, fold_max (Some r0) xs = Some r.
Proof.
  revert r0. induction xs as [| x xs IH]; intros r0; cbn; [by eexists |].
  apply IH.
Qed.

(** The running minimum is an element that nothing visited is below. *)
Lemma fold_min_least r0 xs r :
  is_nan r0 = false -> Forall (fun x => is_nan x = false) xs ->
  fold_min (Some r0) xs = Some r ->
  r ∈ r0 :: xs /\ forall y, y ∈ r0 :: xs -> num_lt y r = false.
Proof.
  intros Hr0 Hxs. revert r0 Hr0.
  induction Hxs as [| x xs Hx Hxs IH]; intros r0 Hr0 Hfold.
  - injection Hfold as <-. split; [apply elem_of_cons; by left |].
    intros y Hy. apply list_elem_of_singleton in Hy as ->.
    apply num_lt_irrefl.
  - cbn in Hfold.
    assert (Hr1 : is_nan (if num_lt x r0 then x else r0) = false)
      by (by destruct (num_lt x r0)).
    destruct (IH _ Hr1 Hfold) as [Hin Hleast].
    assert (Hr : is_nan r = false).
    { apply elem_of_cons in Hin as [-> | Hin]; [done |].
      rewrite Forall_forall in Hxs. by apply Hxs. }
    assert (H1 : num_lt (if num_lt x r0 then x else r0) r = false)
      by (apply Hleast, elem_of_cons; by left).
    split.
    + apply elem_of_cons in Hin as [-> | Hin].
      * destruct (num_lt x r0); [apply elem_of_cons; right |];
          apply elem_of_cons; by left.
      * do 2 (apply elem_of_cons; right). exact Hin.
    + intros y Hy. apply elem_of_cons in Hy as [-> | Hy];
        [| apply elem_of_cons in Hy as [-> | Hy]].
      * destruct (num_lt x r0) eqn:Hlt; [| exact H1].
        apply not_true_is_false. intros Hlt'.
        rewrite (num_lt_trans x r0 r) in H1; done.
      * destruct (num_lt x r0) eqn:Hlt; [exact H1 |].
        by apply (num_lt_neg_trans x r0 r).
      * apply Hleast, elem_of_cons. by right.
Qed.

Lemma fold_max_greatest r0 xs r :
  is_nan r0 = false -> Forall (fun x => is_nan x = false) xs ->
  fold_max (Some r0) xs = Some r ->
  r ∈ r0 :: xs /\ forall y, y ∈ r0 :: xs -> num_lt r y = false.
Proof.
  intros Hr0 Hxs. revert r0 Hr0.
  induction Hxs as [| x xs Hx Hxs IH]; intros r0 Hr0 Hfold.
  - injection Hfold as <-. split; [apply elem_of_cons; by left |].
    intros y Hy. apply list_elem_of_singleton in Hy as ->.
    apply num_lt_irrefl.
  - cbn in Hfold.
    assert (Hr1 : is_nan (if num_lt r0 x then x else r0) = false)
      by (by destruct (num_lt r0 x)).
    destruct (IH _ Hr1 Hfold) as [Hin Hmost].
    assert (Hr : is_nan r = false).
    { apply elem_of_cons in Hin as [-> | Hin]; [done |].
      rewrite Forall_forall in Hxs. by apply Hxs. }
    assert (H1 : num_lt r (if num_lt r0 x then x else r0) = false)
      by (apply Hmost, elem_of_cons; by left).
    split.
    + apply elem_of_cons in Hin as [-> | Hin].
      * destruct (num_lt r0 x); [apply elem_of_cons; right |];
          apply elem_of_cons; by left.
      * do 2 (apply elem_of_cons; right). exact Hin.
    + intros y Hy. apply elem_of_cons in Hy as [-> | Hy];
        [| apply elem_of_cons in Hy as [-> | Hy]].
      * destruct (num_lt r0 x) eqn:Hlt; [| exact H1].
        apply not_true_is_false. intros Hlt'.
        rewrite (num_lt_trans r r0 x) in H1; done.
      * destruct (num_lt r0 x) eqn:Hlt; [exact H1 |].
        by apply (num_lt_neg_trans r r0 x).
      * apply Hmost, elem_of_cons. by right.
Qed.

(** Two lists of numbers without [NaN] and with the same elements have
    the same minimum and the same maximum, as numbers. *)
Lemma fold_min_same_elements (xs xs' : list number) :
  Forall (fun x => is_nan x = false) xs ->
  (forall x, x ∈ xs <-> x ∈ xs') ->
  slot_eq (fold_min None xs) (fold_min None xs') = true.
Proof.
  intros Hxs Hsame.
  assert (Hxs' : Forall (fun x => is_nan x = false) xs').
  { rewrite Forall_forall in Hxs |- *. intros x Hx. by apply Hxs, Hsame. }
  destruct xs as [| x t], xs' as [| x' t'].
  - reflexivity.
  - assert (x' ∈ @nil number) as Hx by (apply Hsame, elem_of_cons; by left).
    inversion Hx.
  - assert (x ∈ @nil number) as Hx by (apply Hsame, elem_of_cons; by left).
    inversion Hx.
  - cbn. fold (fold_min (Some x) t). fold (fold_min (Some x') t').
    apply Forall_cons in Hxs as [Hx Ht]. apply Forall_cons in Hxs' as [Hx' Ht'].
    destruct (fold_min_Some x t) as [r Hr], (fold_min_Some x' t') as [r' Hr'].
    rewrite Hr, Hr'. cbn.
    destruct (fold_min_least _ _ _ Hx Ht Hr) as [Hin Hleast].
    destruct (fold_min_least _ _ _ Hx' Ht' Hr') as [Hin' Hleast'].
    assert (is_nan r = false).
    { apply elem_of_cons in Hin as [-> | Hin]; [done |].
      rewrite Forall_forall in Ht. by apply Ht. }
    assert (is_nan r' = false).
    { apply elem_of_cons in Hin' as [-> | Hin']; [done |].
      rewrite Forall_forall in Ht'. by apply Ht'. }
    apply num_lt_none_eq; [done | done | |].
    + by apply Hleast', Hsame.
    + by apply Hleast, Hsame.
Qed.

Lemma fold_max_same_elements (xs xs' : list number) :
  Forall (fun x => is_nan x = false) xs ->
  (forall x, x ∈ xs <-> x ∈ xs') ->
  slot_eq (fold_max None xs) (fold_max None xs') = true.
Proof.
  intros Hxs Hsame.
  assert (Hxs' : Forall (fun x => is_nan x = false) xs').
  { rewrite Forall_forall in Hxs |- *. intros x Hx. by apply Hxs, Hsame. }
  destruct xs as [| x t], xs' as [| x' t'].
  - reflexivity.
  - assert (x' ∈ @nil number) as Hx by (apply Hsame, elem_of_cons; by left).
    inversion Hx.
  - assert (x ∈ @nil number) as Hx by (apply Hsame, elem_of_cons; by left).
    inversion Hx.
  - cbn. fold (fold_max (Some x) t). fold (fold_max (Some x') t').
    apply Forall_cons in Hxs as [Hx Ht]. apply Forall_cons in Hxs' as [Hx' Ht'].
    destruct (fold_max_Some x t) as [r Hr], (fold_max_Some x' t') as [r' Hr'].
    rewrite Hr, Hr'. cbn.
    destruct (fold_max_greatest _ _ _ Hx Ht Hr) as [Hin Hmost].
    destruct (fold_max_greatest _ _ _ Hx' Ht' Hr') as [Hin' Hmost'].
    assert (is_nan r = false).
    { apply elem_of_cons in Hin as [-> | Hin]; [done |].
      rewrite Forall_forall in Ht. by apply Ht. }
    assert (is_nan r' = false).
    { apply elem_of_cons in Hin' as [-> | Hin']; [done |].
      rewrite Forall_forall in Ht'. by apply Ht'. }
    apply num_lt_none_eq; [done | done | |].
    + by apply Hmost, Hsame.
    + by apply Hmost', Hsame.
Qed.

Lemma all_visited_elem (p : coordinate) (fs : list Feature) :
  p ∈ all_visited fs <-> exists f, f ∈ fs /\ p ∈ visited (geometry f).
Proof.
  unfold all_visited. rewrite list_elem_of_In, in_concat. split.
  - intros (l & Hl & Hp). apply in_map_iff in Hl as (f & <- & Hf).
    exists f. by rewrite !list_elem_of_In.
  - intros (f & Hf & Hp). exists (visited (geometry f)).
    rewrite <- !list_elem_of_In. split; [| done].
    apply list_elem_of_In, in_map_iff. exists f.
    by rewrite <- list_elem_of_In.
Qed.

Lemma all_visited_perm (fs fs' : list Feature) :
  fs ≡ₚ fs' -> forall p, p ∈ all_visited fs <-> p ∈ all_visited fs'.
Proof.
  intros Hperm p. rewrite !all_visited_elem.
  split; intros (f & Hf & Hp); exists f; split; try done.
  - by rewrite <- Hperm.
  - by rewrite Hperm.
Qed.

Lemma extent_same_visited (pts pts' : list coordinate) :
  Forall not_nan pts ->
  (forall p, p ∈ pts <-> p ∈ pts') ->
  bounds_eq (fold_left update_bounds pts (None, None, None, None))
            (fold_left update_bounds pts' (None, None, None, None)) = true.
Proof.
  intros Hnan Hsame. rewrite !update_bounds_slots. cbn [bounds_eq].
  assert (H1 : Forall (fun x => is_nan x = false) (pts.*1)).
  { apply Forall_fmap. eapply Forall_impl; [exact Hnan |]. by intros p []. }
  assert (H2 : Forall (fun x => is_nan x = false) (pts.*2)).
  { apply Forall_fmap. eapply Forall_impl; [exact Hnan |]. by intros p []. }
  assert (S1 : forall x, x ∈ pts.*1 <-> x ∈ pts'.*1).
  { intros x. rewrite !list_elem_of_fmap.
    split; intros (p & -> & Hp); exists p; split; try done; by apply Hsame. }
  assert (S2 : forall x, x ∈ pts.*2 <-> x ∈ pts'.*2).
  { intros x. rewrite !list_elem_of_fmap.
    split; intros (p & -> & Hp); exists p; split; try done; by apply Hsame. }
  rewrite (fold_min_same_elements _ _ H1 S1), (fold_min_same_elements _ _ H2 S2).
  by rewrite (fold_max_same_elements _ _ H1 S1), (fold_max_same_elements _ _ H2 S2).
Qed.

(** *** Examples *)

Definition point_feature (x y : number) : Feature :=
  {| geometry := Point (x, y); properties := ∅ |}.

Definition num_0 : number := S754_zero false.
Definition num_1 : number := S754_finite false 4503599627370496 (-52).
Definition num_2 : number := S754_finite false 4503599627370496 (-51).
Definition num_4 : number := S754_finite false 4503599627370496 (-50).
Definition num_minus_3 : number := S754_finite true 6755399441055744 (-51).

(** The scenario of the specification: the extent of the points [1, 2] and
    [-3, 4] is [-3, 2, 1, 4]. *)
Example getFeaturesExtent_two_points :
  getFeaturesExtent
    (source_of [point_feature num_1 num_2; point_feature num_minus_3 num_4])
  = Normal (Some num_minus_3, Some num_2, Some num_1, Some num_4).
Proof. vm_compute. reflexivity. Qed.

(** C7, as stated, fails: a [NaN] coordinate met first stays in its slots,
    met later it is ignored, so the two orders of the same two points give
    different extents. *)
Lemma getFeaturesExtent_counterexample :
  [point_feature NaN num_0; point_feature num_1 num_0]
    ≡ₚ [point_feature num_1 num_0; point_feature NaN num_0] /\
  getFeaturesExtent
    (source_of [point_feature NaN num_0; point_feature num_1 num_0])
  = Normal (Some NaN, Some num_0, Some NaN, Some num_0) /\
  getFeaturesExtent
    (source_of [point_feature num_1 num_0; point_feature NaN num_0])
  = Normal (Some num_1, Some num_0, Some num_1, Some num_0) /\
  bounds_eq (Some NaN, Some num_0, Some NaN, Some num_0)
            (Some num_1, Some num_0, Some num_1, Some num_0) = false.
Proof.
  split; [apply Permutation_swap |].
  repeat split; vm_compute; reflexivity.
Qed.

(** C7 (amended): for feature collections none of whose visited coordinates
    is [NaN], the extent depends only on the set of visited coordinate
    pairs: two collections that are permutations of each other, or more
    generally visit the same pairs in any order and number, get extents
    whose slots are equal as numbers ([===]; [+0] and [-0] are not told
    apart). *)
Theorem getFeaturesExtent_order_independent (fs fs' : list Feature) :
  Forall not_nan (all_visited fs) ->
  fs ≡ₚ fs' \/ (forall p, p ∈ all_visited fs <-> p ∈ all_visited fs') ->
  exists b b',
    getFeaturesExtent (source_of fs) = Normal b /\
    getFeaturesExtent (source_of fs') = Normal b' /\
    bounds_eq b b' = true.
Proof.
  intros Hnan Hsame.
  assert (Hset : forall p, p ∈ all_visited fs <-> p ∈ all_visited fs').
  { destruct Hsame as [Hperm | Hset]; [by apply all_visited_perm | done]. }
  eexists _, _. rewrite !getFeaturesExtent_visited.
  split; [reflexivity |]. split; [reflexivity |].
  by apply extent_same_visited.
Qed.

Lemma getFeaturesExtent_order_independent_witness :
  exists b b',
    getFeaturesExtent
      (source_of [point_feature num_1 num_2; point_feature num_minus_3 num_4])
    = Normal b /\
    getFeaturesExtent
      (source_of [point_feature num_minus_3 num_4; point_feature num_1 num_2])
    = Normal b' /\
    bounds_eq b b' = true.
Proof.
  apply (getFeaturesExtent_order_independent
           [point_feature num_1 num_2; point_feature num_minus_3 num_4]
           [point_feature num_minus_3 num_4; point_feature num_1 num_2]).
  - repeat constructor.
  - left. apply Permutation_swap.
Defined.

End ExtentFacts.

(** ** Catalog paths *)

Module PathsFacts.
Import Paths.

(** No character of [s] is the separator. *)
Fixpoint free_of (sep : ascii) (s : string) : bool :=
  match s with
  | EmptyString => true
  | String c s' => negb (Ascii.eqb c sep) && free_of sep s'
  end.

Lemma concat_cons2 (sep x y : string) (l : list string) :
  String.concat sep (x :: y :: l) = (x ++ sep ++ String.concat sep (y :: l))%string.
Proof. reflexivity. Qed.

Lemma split_join sep s :
  String.concat (String sep EmptyString) ((split sep s).1 :: (split sep s).2) = s.
Proof.
  induction s as [| c s IH]; [reflexivity |].
  cbn [split]. destruct (split sep s) as [h t] eqn:E. cbn [fst snd] in IH.
  destruct (Ascii.eqb_spec c sep) as [-> | Hc]; cbn [fst snd].
  - rewrite concat_cons2, IH. reflexivity.
  - destruct t as [| h' t'].
    + cbn in IH |- *. by rewrite IH.
    + rewrite concat_cons2 in IH |- *. rewrite <- IH. reflexivity.
Qed.

Lemma split_head_free sep s : free_of sep (split sep s).1 = true.
Proof.
  induction s as [| c s IH]; [reflexivity |].
  cbn [split]. destruct (split sep s) as [h t]. cbn [fst] in IH.
  destruct (Ascii.eqb c sep) eqn:Hc; cbn [fst free_of]; [reflexivity |].
  by rewrite Hc, IH.
Qed.

Lemma split_free sep s : free_of sep s = true -> split sep s = (s, []).
Proof.
  induction s as [| c s IH]; [reflexivity |]. cbn [free_of split].
  intros [Hc Hs]%andb_true_iff. rewrite (IH Hs).
  apply negb_true_iff in Hc. by rewrite Hc.
Qed.

Lemma split_tail_nil sep s : (split sep s).2 = [] -> free_of sep s = true.
Proof.
  induction s as [| c s IH]; [reflexivity |]. cbn [split free_of].
  destruct (split sep s) as [h t]. cbn [snd] in IH.
  destruct (Ascii.eqb c sep); cbn [snd negb andb]; [discriminate | exact IH].
Qed.

Lemma split_app sep s l :
  free_of sep s = true ->
  split sep (s ++ String sep l) = (s, (split sep l).1 :: (split sep l).2).
Proof.
  induction s as [| c s IH]; cbn [free_of].
  - intros _. change ("" ++ String sep l)%string with (String sep l).
    cbn [split]. destruct (split sep l) as [h t]. by rewrite Ascii.eqb_refl.
  - intros [Hc Hs]%andb_true_iff.
    change (String c s ++ String sep l)%string
      with (String c (s ++ String sep l)).
    cbn [split]. rewrite (IH Hs).
    apply negb_true_iff in Hc. by rewrite Hc.
Qed.

(** The map-source name of a path has no [/]. A path without [/] is its
    own map-source name and has the empty layer name; any other path is the
    map-source name, a [/] and the layer name. *)
Theorem path_decomposition (path : string) :
  free_of "/" (getMapSourceName (Some path)) = true /\
  (if free_of "/" path
   then getMapSourceName (Some path) = path /\ getLayerName (Some path) = ""
   else path = getMapSourceName (Some path) ++ "/" ++ getLayerName (Some path)).
Proof.
  split; [apply split_head_free |].
  unfold getMapSourceName, getLayerName.
  destruct (free_of "/" path) eqn:Hfree.
  - by rewrite (split_free _ _ Hfree).
  - pose proof (split_join "/" path) as Hjoin.
    destruct (split "/" path) as [h t] eqn:E. cbn [fst snd] in *.
    destruct t as [| h' t'].
    + pose proof (split_tail_nil "/" path) as Hnil. rewrite E in Hnil.
      rewrite Hnil in Hfree; [discriminate | reflexivity].
    + by rewrite <- Hjoin.
Qed.

(** A path built from a map-source name without [/] and a layer name gives
    both back, also when the layer name itself has a [/]. *)
Theorem path_round_trip (source layer : string) :
  free_of "/" source = true ->
  getMapSourceName (Some (source ++ "/" ++ layer)) = source /\
  getLayerName (Some (source ++ "/" ++ layer)) = layer.
Proof.
  intros Hfree. unfold getMapSourceName, getLayerName.
  change (source ++ "/" ++ layer)%string with (source ++ String "/" layer)%string.
  rewrite (split_app _ _ _ Hfree). cbn [fst snd].
  split; [reflexivity | apply split_join].
Qed.

Lemma path_round_trip_witness :
  getMapSourceName (Some ("parcels" ++ "/" ++ "group/lines")) = "parcels" /\
  getLayerName (Some ("parcels" ++ "/" ++ "group/lines")) = "group/lines".
Proof. apply (path_round_trip "parcels" "group/lines"). reflexivity. Defined.

End PathsFacts.

(** ** Booleans of configuration files *)

Module BooleansFacts.
Import Booleans.

(** [mid] occurs in [s], case ignored. *)
Definition occurs_i (pattern s : string) : Prop :=
  exists pre mid post,
    s = (pre ++ mid ++ post)%string /\
    map to_upper (list_ascii_of_string mid)
    = map to_upper (list_ascii_of_string pattern).

Lemma matches_here_iff pattern s :
  matches_here pattern s = true <->
  exists mid post,
    s = (mid ++ post)%string /\
    map to_upper (list_ascii_of_string mid)
    = map to_upper (list_ascii_of_string pattern).
Proof.
  revert s. induction pattern as [| p pattern IH]; intros s.
  - split; [| reflexivity]. intros _. by exists EmptyString, s.
  - destruct s as [| c s]; cbn [matches_here].
    + split; [discriminate |]. intros (mid & post & Hs & Hmid).
      destruct mid; [discriminate Hmid | discriminate Hs].
    + rewrite andb_true_iff, IH. split.
      * intros [Hc (mid & post & -> & Hmid)].
        exists (String c mid), post. split; [reflexivity |].
        cbn. apply Ascii.eqb_eq in Hc. by rewrite Hc, Hmid.
      * intros (mid & post & Hs & Hmid).
        destruct mid as [| c' mid]; [discriminate Hmid |].
        injection Hs as -> ->. cbn in Hmid. injection Hmid as Hc Hmid.
        split; [by apply Ascii.eqb_eq |]. by exists mid, post.
Qed.

Lemma regexp_match_i_iff pattern s :
  regexp_match_i pattern s = true <-> occurs_i pattern s.
Proof.
  unfold occurs_i. induction s as [| c s IH]; cbn [regexp_match_i].
  - rewrite orb_false_r, matches_here_iff. split.
    + intros (mid & post & Hs & Hmid). by exists EmptyString, mid, post.
    + intros (pre & mid & post & Hs & Hmid).
      destruct pre; [| discriminate Hs]. by exists mid, post.
  - rewrite orb_true_iff, matches_here_iff, IH. split.
    + intros [(mid & post & Hs & Hmid) | (pre & mid & post & -> & Hmid)].
      * by exists EmptyString, mid, post.
      * by exists (String c pre), mid, post.
    + intros (pre & mid & post & Hs & Hmid). destruct pre as [| c' pre].
      * left. by exists mid, post.
      * right. injection Hs as -> ->. by exists pre, mid, post.
Qed.

Section Facts.

Variable NumberToString : number -> string.

(** [parseBoolean] gives every boolean back, whatever the default, and
    gives the default, [false] if none is passed, for [undefined] and
    [null]. *)
Lemma parseBoolean_boolean (b : bool) (def : scalar) :
  parseBoolean NumberToString (SBool b) def = SBool b /\
  parseBoolean NumberToString SUndefined def
  = match def with SUndefined => SBool false | _ => def end /\
  parseBoolean NumberToString SNull def
  = match def with SUndefined => SBool false | _ => def end.
Proof. split; [by destruct b | by split]. Qed.

(** On a string, [parseBoolean] answers a boolean, never the default: true
    exactly when [true] or [on] occurs somewhere in it, case ignored. The
    test against ['1'] never succeeds. *)
Theorem parseBoolean_string (s : string) (def : scalar) :
  parseBoolean NumberToString (SString s) def
  = SBool (regexp_match_i "true" s || regexp_match_i "on" s) /\
  (parseBoolean NumberToString (SString s) def = SBool true <->
   occurs_i "true" s \/ occurs_i "on" s).
Proof.
  assert (E : parseBoolean NumberToString (SString s) def
              = SBool (regexp_match_i "true" s || regexp_match_i "on" s)).
  { unfold parseBoolean, String_object_strict_eq. cbn [Filter.ToString].
    by destruct (regexp_match_i "true" s), (regexp_match_i "on" s). }
  split; [exact E |]. rewrite E, <- !regexp_match_i_iff, <- orb_true_iff.
  split; [by intros [= ->] | by intros ->].
Qed.

End Facts.

(** ['1'] and ['yes'] parse as false, ['none'] and ['ON'] as true. *)
Example parseBoolean_samples NumberToString :
  parseBoolean NumberToString (SString "1") SUndefined = SBool false /\
  parseBoolean NumberToString (SString "yes") SUndefined = SBool false /\
  parseBoolean NumberToString (SString "none") SUndefined = SBool true /\
  parseBoolean NumberToString (SString "ON") (SBool false) = SBool true.
Proof. repeat split; vm_compute; reflexivity. Qed.

End BooleansFacts.

(** ** Comparison of objects *)

Module ObjectsFacts.
Import Objects.

(** Every path through the switch returns or fails: the body of the first
    loop never hands over to a second key. *)
Lemma switch_b_type_returns recurse objA objB deep key :
  switch_b_type recurse objA objB deep key <> Continue /\
  switch_b_type recurse objA objB deep key <> Return false.
Proof.
  unfold switch_b_type, case_object.
  destruct (get_value objB key) as [[| | b | n | s] | o]; cbn;
    repeat match goal with
    | |- context [if ?c then _ else _] => destruct c
    | |- context [match recurse ?a ?b with _ => _ end] =>
        destruct (recurse a b) as [[[|] | ?] |]
    end; split; discriminate.
Qed.

Lemma for_of_first_key body key keys rest :
  body key <> Continue ->
  for_of body (key :: keys) rest =
  match body key with
  | Return b => Some (Normal b)
  | Raise e => Some (Throw e)
  | _ => None
  end.
Proof. cbn. by destruct (body key). Qed.

Lemma second_loop_no_a_keys (b_keys : list string) :
  for_of (fun key => if negb (existsb (String.eqb key) []) then Return true
                     else Continue)
         b_keys (Some (Normal false))
  = Some (Normal (match b_keys with [] => false | _ => true end)).
Proof. by destruct b_keys. Qed.

(** [objectsDiffer] returns false only for two values without keys, in
    either mode: two objects that have a key are reported to differ even
    when they are equal. *)
Theorem objectsDiffer_false_iff (fuel : nat) (objA objB : value) (deep : bool) :
  objectsDiffer fuel objA objB deep = Some (Normal false) <->
  fuel <> O /\ Object_keys objA = Normal [] /\ Object_keys objB = Normal [].
Proof.
  destruct fuel as [| fuel]; cbn [objectsDiffer].
  { split; [discriminate | by intros [? _]]. }
  destruct (Object_keys objA) as [a_keys | e].
  2:{ split; [discriminate | by intros (_ & [=] & _)]. }
  destruct (Object_keys objB) as [b_keys | e].
  2:{ split; [discriminate | by intros (_ & _ & [=])]. }
  destruct a_keys as [| key a_keys].
  - cbn [for_of]. rewrite second_loop_no_a_keys.
    destruct b_keys; split; try discriminate; try done.
    by intros (_ & _ & [=]).
  - split; [| by intros (_ & [=] & _)].
    destruct (switch_b_type_returns
                (fun a b => objectsDiffer fuel a b true) objA objB deep key)
      as [Hc Hf].
    rewrite for_of_first_key by exact Hc.
    destruct (switch_b_type _ objA objB deep key) as [[|] | | |];
      try discriminate; by destruct Hf.
Qed.

(** Without [deep], the comparison of two objects always completes, and
    its result is true as soon as one of them has a key. *)
Theorem objectsDiffer_shallow (fuel : nat) (a b : list (string * value)) :
  objectsDiffer (S fuel) (VObject a) (VObject b) false
  = Some (Normal (match a, b with [], [] => false | _, _ => true end)).
Proof.
  cbn [objectsDiffer Object_keys]. destruct a as [| [key v] a].
  - cbn [fmap list_fmap for_of]. rewrite second_loop_no_a_keys.
    by destruct b.
  - cbn [fmap list_fmap fst].
    destruct (switch_b_type_returns
                (fun a b => objectsDiffer fuel a b true)
                (VObject ((key, v) :: a)) (VObject b) false key) as [Hc Hf].
    rewrite for_of_first_key by exact Hc.
    revert Hc Hf. unfold switch_b_type, case_object.
    destruct (get_value (VObject b) key) as [[| | ? | ? | ?] | ?]; cbn;
      repeat match goal with
      | |- context [if ?c then _ else _] => destruct c
      end; done.
Qed.

(** Two equal objects with a key differ, says [objectsDiffer]. *)
Example objectsDiffer_equal_objects :
  objectsDiffer 1 (VObject [("a", VPrim (SString "x"))])
                  (VObject [("a", VPrim (SString "x"))]) false
  = Some (Normal true).
Proof. reflexivity. Qed.

(** One character compared with itself in deep mode: the recursion goes
    from the string to its first character, which is the string again. *)
Lemma objectsDiffer_char_diverges (fuel : nat) (c : ascii) :
  objectsDiffer fuel (VPrim (SString (String c EmptyString)))
                     (VPrim (SString (String c EmptyString))) true = None.
Proof.
  induction fuel as [| fuel IH]; [reflexivity |].
  cbn [objectsDiffer Object_keys String.length seq map for_of].
  unfold switch_b_type. cbn [get_value].
  change (String.eqb (index_key 0) "length") with false. cbv iota.
  cbn [char_at_key]. rewrite String.eqb_refl.
  cbn [strict_neq_prim strict_eq]. rewrite String.eqb_refl. cbn [negb].
  unfold case_object. cbn [loose_null andb]. by rewrite IH.
Qed.

(** The deep comparison of a non-empty string with itself never returns. *)
Lemma objectsDiffer_string_diverges (fuel : nat) (c : ascii) (s : string) :
  objectsDiffer fuel (VPrim (SString (String c s)))
                     (VPrim (SString (String c s))) true = None.
Proof.
  destruct fuel as [| fuel]; [reflexivity |].
  cbn [objectsDiffer Object_keys String.length seq map for_of].
  unfold switch_b_type. cbn [get_value].
  change (String.eqb (index_key 0) "length") with false. cbv iota.
  cbn [char_at_key]. rewrite String.eqb_refl.
  cbn [strict_neq_prim strict_eq]. rewrite String.eqb_refl. cbn [negb].
  unfold case_object. cbn [loose_null andb].
  by rewrite objectsDiffer_char_diverges.
Qed.

(** In deep mode, a first key of [objA] under which both objects hold
    [null] makes the comparison raise: the test on [null] does not keep the
    recursion from reaching [Object.keys(null)]. *)
Theorem objectsDiffer_deep_null (fuel : nat) (key : string)
    (a b : list (string * value)) :
  lookup_own key b = VPrim SNull ->
  objectsDiffer (S (S fuel)) (VObject ((key, VPrim SNull) :: a)) (VObject b) true
  = Some (Throw TypeError).
Proof.
  intros Hb. cbn [objectsDiffer Object_keys fmap list_fmap fst for_of].
  unfold switch_b_type. cbn [get_value lookup_own].
  rewrite Hb, String.eqb_refl. unfold case_object. reflexivity.
Qed.

(** In deep mode, a first key of [objA] under which both objects hold the
    same non-empty string makes the comparison recurse without end: at no
    depth has the call returned. *)
Theorem objectsDiffer_deep_equal_strings (fuel : nat) (key : string)
    (c : ascii) (str : string) (a b : list (string * value)) :
  lookup_own key b = VPrim (SString (String c str)) ->
  objectsDiffer fuel (VObject ((key, VPrim (SString (String c str))) :: a))
                (VObject b) true
  = None.
Proof.
  intros Hb. destruct fuel as [| fuel]; [reflexivity |].
  cbn [objectsDiffer Object_keys fmap list_fmap fst for_of].
  unfold switch_b_type. cbn [get_value lookup_own].
  rewrite Hb, String.eqb_refl.
  cbn [strict_neq_prim strict_eq]. rewrite String.eqb_refl. cbn [negb].
  unfold case_object. cbn [loose_null andb].
  by rewrite objectsDiffer_string_diverges.
Qed.

Lemma objectsDiffer_deep_equal_strings_witness :
  objectsDiffer 50 (VObject [("name", VPrim (SString "x"))])
                (VObject [("name", VPrim (SString "x"))]) true
  = None.
Proof.
  apply (objectsDiffer_deep_equal_strings
           50 "name" "x" "" [] [("name", VPrim (SString "x"))]).
  reflexivity.
Defined.

Lemma objectsDiffer_deep_null_witness :
  objectsDiffer 2 (VObject [("a", VPrim SNull)]) (VObject [("a", VPrim SNull)])
                true
  = Some (Throw TypeError).
Proof. apply (objectsDiffer_deep_null 0 "a" [] [("a", VPrim SNull)]). reflexivity. Defined.

End ObjectsFacts.

(** ** The filter evaluator: modes, short circuit, absent properties *)

Module FilterModes.
Import Filter.

Section Facts.

Variable StringToNumber : string -> number.
Variable NumberToString : number -> string.

Local Abbreviation inRange := (inRange StringToNumber).
Local Abbreviation clause_value := (clause_value StringToNumber NumberToString).
Local Abbreviation featureMatch_loop :=
  (featureMatch_loop StringToNumber NumberToString).
Local Abbreviation featureMatch := (featureMatch StringToNumber NumberToString).

(** The value of the entry [kd] of a filter on a feature. *)
Definition entry_value (feature : Feature) (kd : string * filter_def)
  : completion bool :=
  clause_value (get (properties feature) kd.1) kd.2.

Lemma loop_cons feature match_all kd (entries : filter) :
  featureMatch_loop feature match_all (kd :: entries) =
  match entry_value feature kd with
  | Throw e => Throw e
  | Normal v =>
      if v && negb match_all then Normal true
      else if negb v && match_all then Normal false
      else featureMatch_loop feature match_all entries
  end.
Proof.
  destruct kd as [k d]. unfold entry_value. cbn [Filter.featureMatch_loop fst snd].
  by destruct (clause_value (get (properties feature) k) d).
Qed.

Lemma loop_all_true feature (entries : filter) :
  featureMatch_loop feature true entries = Normal true <->
  Forall (fun kd => entry_value feature kd = Normal true) entries.
Proof.
  induction entries as [| kd entries IH].
  - split; [constructor | reflexivity].
  - rewrite loop_cons, Forall_cons.
    destruct (entry_value feature kd) as [[|] | e]; cbn.
    + rewrite IH. by split; [| intros [_ ?]].
    + split; [discriminate | by intros [[=] _]].
    + split; [discriminate | by intros [[=] _]].
Qed.

(** A filter without [match: 'any'] matches a feature iff every one of its
    entries evaluates to true on it; the filter without entries matches
    every feature. *)
Theorem featureMatch_all_iff (feature : Feature) (filter : filter) :
  match_is_any filter = false ->
  (featureMatch feature filter = Normal true <->
   forall key def, (key, def) ∈ filter ->
     clause_value (get (properties feature) key) def = Normal true).
Proof.
  intros Hall. unfold Filter.featureMatch. rewrite Hall.
  rewrite loop_all_true, Forall_forall. split.
  - intros H key def Hin. apply (H (key, def) Hin).
  - intros H [key def] Hin. apply (H key def Hin).
Qed.

Lemma loop_short_circuit feature match_all (pre post : filter) kd :
  Forall (fun kd => entry_value feature kd = Normal match_all) pre ->
  featureMatch_loop feature match_all (pre ++ kd :: post)%list =
  featureMatch_loop feature match_all (kd :: post).
Proof.
  induction 1 as [| kd' pre Hkd' _ IH]; [reflexivity |].
  rewrite <- app_comm_cons, loop_cons, Hkd'. by destruct match_all.
Qed.

(** The first entry that decides ends the evaluation: in a [match: 'any']
    filter the first entry that is true, after entries that are false,
    gives true; in any other filter the first entry that is false, after
    entries that are true, gives false. The entries after it are not
    evaluated, so an entry that would raise there does no harm. *)
Theorem featureMatch_short_circuit (feature : Feature) (pre post : filter)
    (key : string) (def : filter_def) :
  let filter := (pre ++ (key, def) :: post)%list in
  Forall (fun kd => entry_value feature kd
                    = Normal (negb (match_is_any filter))) pre ->
  clause_value (get (properties feature) key) def
  = Normal (match_is_any filter) ->
  featureMatch feature filter = Normal (match_is_any filter).
Proof.
  intros filter Hpre Hdef. unfold Filter.featureMatch. fold filter.
  destruct (match_is_any filter); cbn [negb] in Hpre; unfold filter;
    rewrite (loop_short_circuit _ _ _ _ _ Hpre), loop_cons;
    unfold entry_value; cbn [fst snd]; by rewrite Hdef.
Qed.

(** An entry that raises, after entries that do not decide, makes
    [featureMatch] raise. *)
Theorem featureMatch_raises (feature : Feature) (pre post : filter)
    (key : string) (def : filter_def) (e : error) :
  let filter := (pre ++ (key, def) :: post)%list in
  Forall (fun kd => entry_value feature kd
                    = Normal (negb (match_is_any filter))) pre ->
  clause_value (get (properties feature) key) def = Throw e ->
  featureMatch feature filter = Throw e.
Proof.
  intros filter Hpre Hdef. unfold Filter.featureMatch. fold filter.
  destruct (match_is_any filter); cbn [negb] in Hpre; unfold filter;
    rewrite (loop_short_circuit _ _ _ _ _ Hpre), loop_cons;
    unfold entry_value; cbn [fst snd]; by rewrite Hdef.
Qed.

(** A filter that spells its mode out, as in [match: 'all'], never
    matches a feature unless the feature has that very value under the
    property [match]: the key [match] is evaluated as an equality clause. *)
Theorem featureMatch_match_key_is_clause (feature : Feature) (filter : filter)
    (v : scalar) :
  NoDup (filter.*1) ->
  ("match", FValue (JScalar v)) ∈ filter ->
  strict_eq v (SString "any") = false ->
  strict_eq v (get (properties feature) "match") = false ->
  featureMatch feature filter <> Normal true.
Proof.
  intros Hnd Hin Hv Hprop. unfold Filter.featureMatch, match_is_any.
  rewrite (FilterFacts.lookup_key_unique _ _ _ Hnd Hin), Hv.
  rewrite loop_all_true, Forall_forall. intros H.
  specialize (H _ Hin). unfold entry_value in H. cbn [fst snd] in H.
  unfold Filter.clause_value in H.
  destruct v; try discriminate H; rewrite Hprop in H; discriminate H.
Qed.

Lemma js_lt_undefined_l x : js_lt StringToNumber SUndefined x = false.
Proof. destruct x; try reflexivity; unfold js_lt, num_lt; by cbn. Qed.

Lemma js_lt_undefined_r x : js_lt StringToNumber x SUndefined = false.
Proof.
  destruct x as [| | [|] | n | s]; try reflexivity;
    unfold js_lt, num_lt, SFltb; cbn;
    [by destruct n | by destruct (StringToNumber s)].
Qed.

(** A feature that lacks the property of a clause fails it without
    raising: a range clause whatever its bounds, a shorthand scalar or an
    [equals] clause whose value is not [undefined] nor [null], a shorthand
    array or a [list] clause whose array does not hold [undefined]. *)
Theorem absent_property_fails (min max v : scalar) (l : list scalar)
    (other : jsval) :
  FilterFacts.given v = true ->
  SUndefined ∉ l ->
  clause_value SUndefined
    (FClause {| type := SString "range"; min := min; max := max;
                value := other |}) = Normal false /\
  clause_value SUndefined (FValue (JScalar v)) = Normal false /\
  clause_value SUndefined
    (FClause {| type := SString "equals"; min := min; max := max;
                value := JScalar v |}) = Normal false /\
  clause_value SUndefined (FValue (JArray l)) = Normal false /\
  clause_value SUndefined
    (FClause {| type := SString "list"; min := min; max := max;
                value := JArray l |}) = Normal false.
Proof.
  intros Hv Hl.
  assert (E : existsb (fun x => strict_eq x SUndefined) l = false).
  { apply not_true_is_false. intros (x & Hx & Hxu)%existsb_exists.
    apply Hl. destruct x; try discriminate Hxu. by apply list_elem_of_In. }
  repeat split.
  - unfold Filter.clause_value. cbn [type Filter.min Filter.max strict_eq].
    change (String.eqb "range" "range") with true. cbv iota. f_equal.
    unfold Filter.inRange.
    rewrite !js_lt_undefined_l, !js_lt_undefined_r.
    by destruct (default_null min), (default_null max).
  - by destruct v.
  - by destruct v.
  - unfold Filter.clause_value, Filter.inList. by rewrite E.
  - unfold Filter.clause_value, Filter.inList. cbn [type value strict_eq].
    change (String.eqb "list" "range") with false.
    change (String.eqb "list" "list") with true. cbv iota. by rewrite E.
Qed.

End Facts.

Definition no_number : string -> number := fun _ => NaN.
Definition no_text : number -> string := fun _ => "".

Definition feature_pin : Feature :=
  {| geometry := OtherGeometry "";
     properties := {["PIN" := SString "123"]} |}.

Definition filter_pin : filter := [("PIN", FValue (JScalar (SString "123")))].

Lemma featureMatch_all_iff_witness :
  featureMatch no_number no_text feature_pin filter_pin = Normal true <->
  forall key def, (key, def) ∈ filter_pin ->
    clause_value no_number no_text (get (properties feature_pin) key) def
    = Normal true.
Proof.
  apply (featureMatch_all_iff no_number no_text feature_pin filter_pin).
  reflexivity.
Defined.

(** A clause that fails, followed by an entry that would raise. *)
Definition filter_fail_then_null : filter :=
  [("owner", FValue (JScalar (SString "x"))); ("PIN", FValue (JScalar SNull))].

Lemma featureMatch_short_circuit_witness :
  featureMatch no_number no_text feature_pin filter_fail_then_null
  = Normal false.
Proof.
  apply (featureMatch_short_circuit no_number no_text feature_pin []
           [("PIN", FValue (JScalar SNull))] "owner"
           (FValue (JScalar (SString "x")))).
  - constructor.
  - reflexivity.
Defined.

Lemma featureMatch_match_key_is_clause_witness :
  featureMatch no_number no_text feature_pin
    [("match", FValue (JScalar (SString "all")));
     ("PIN", FValue (JScalar (SString "123")))]
  <> Normal true.
Proof.
  apply (featureMatch_match_key_is_clause no_number no_text feature_pin
           [("match", FValue (JScalar (SString "all")));
            ("PIN", FValue (JScalar (SString "123")))]
           (SString "all")).
  - refine (bool_decide_unpack _ _). vm_compute. exact I.
  - apply list_elem_of_here.
  - reflexivity.
  - reflexivity.
Defined.

Lemma absent_property_fails_witness :
  clause_value no_number no_text SUndefined
    (FClause {| type := SString "range"; min := SNull; max := SNull;
                value := JScalar SUndefined |}) = Normal false /\
  clause_value no_number no_text SUndefined (FValue (JScalar (SString "123")))
  = Normal false /\
  clause_value no_number no_text SUndefined
    (FClause {| type := SString "equals"; min := SNull; max := SNull;
                value := JScalar (SString "123") |}) = Normal false /\
  clause_value no_number no_text SUndefined (FValue (JArray [SString "123"]))
  = Normal false /\
  clause_value no_number no_text SUndefined
    (FClause {| type := SString "list"; min := SNull; max := SNull;
                value := JArray [SString "123"] |}) = Normal false.
Proof.
  apply (absent_property_fails no_number no_text SNull SNull (SString "123")
           [SString "123"] (JScalar SUndefined)).
  - reflexivity.
  - intros H. apply list_elem_of_singleton in H. discriminate H.
Defined.

Lemma featureMatch_raises_witness :
  featureMatch no_number no_text feature_pin
    [("PIN", FValue (JScalar SNull)); ("owner", FValue (JScalar (SString "x")))]
  = Throw TypeError.
Proof.
  apply (featureMatch_raises no_number no_text feature_pin []
           [("owner", FValue (JScalar (SString "x")))] "PIN"
           (FValue (JScalar SNull)) TypeError).
  - constructor.
  - reflexivity.
Defined.

End FilterModes.

(** ** Editing the properties of features *)

Module EditsFacts.
Import Edits.

Section Facts.

Variable StringToNumber : string -> number.
Variable NumberToString : number -> string.
Variable ParseFloat : string -> number.

Local Abbreviation featureMatch :=
  (Filter.featureMatch StringToNumber NumberToString).
Local Abbreviation changeFeatures :=
  (changeFeatures StringToNumber NumberToString).
Local Abbreviation transform_value :=
  (transform_value NumberToString ParseFloat).
Local Abbreviation transform_properties :=
  (transform_properties NumberToString ParseFloat).
Local Abbreviation transformFeatures :=
  (transformFeatures NumberToString ParseFloat).

(** What [changeFeatures] makes of one feature whose match is [m]. *)
Definition changed (properties : gmap string scalar) (m : bool)
    (feature : Feature) : Feature :=
  if m then {| geometry := geometry feature;
               properties := assign_properties (feature_properties feature)
                                               properties |}
  else feature.

Lemma changeFeatures_loop_ok filter properties features acc :
  Forall (fun f => exists m, featureMatch f filter = Normal m) features ->
  exists new,
    changeFeatures_loop StringToNumber NumberToString filter properties
                        features acc
    = Normal (acc ++ new)%list /\
    Forall2 (fun f f' => exists m, featureMatch f filter = Normal m /\
                                   f' = changed properties m f)
            features new.
Proof.
  intros H. revert acc. induction H as [| f features [m Hm] _ IH]; intros acc.
  - exists []. split; [by rewrite app_nil_r | constructor].
  - cbn [changeFeatures_loop]. rewrite Hm. cbn.
    destruct (IH (acc ++ [changed properties m f])%list)
      as (new & Hnew & Hall).
    exists (changed properties m f :: new). split.
    + rewrite <- app_assoc in Hnew. by destruct m.
    + constructor; [by exists m | exact Hall].
Qed.

(** Where the filter evaluates on every feature, [changeFeatures] returns
    as many features, in the same order and with the same geometry; a
    feature that does not match is passed on as it is; a feature that
    matches gets, key by key, the given value if [properties] has the key
    and keeps its own value otherwise, except for the key ["__proto__"]:
    the new properties have it only if the feature had it as [null] and
    [properties] has it, and then with the given value. *)
Theorem changeFeatures_patch (features : list Feature) (filter : Filter.filter)
    (patch : gmap string scalar) :
  Forall (fun f => exists m, featureMatch f filter = Normal m) features ->
  exists new_features,
    changeFeatures features filter patch = Normal new_features /\
    length new_features = length features /\
    forall i f f',
      features !! i = Some f -> new_features !! i = Some f' ->
      geometry f' = geometry f /\
      (featureMatch f filter = Normal false -> f' = f) /\
      (featureMatch f filter = Normal true ->
       properties f' !! "__proto__" =
         match properties f !! "__proto__", patch !! "__proto__" with
         | Some SNull, Some v => Some v
         | _, _ => None
         end /\
       forall key, key <> "__proto__" ->
         properties f' !! key =
         match patch !! key with
         | Some v => Some v
         | None => properties f !! key
         end).
Proof.
  intros H.
  destruct (changeFeatures_loop_ok filter patch features [] H)
    as (new & Hnew & Hall).
  exists new. split; [exact Hnew |].
  split; [symmetry; by eapply Forall2_length |].
  intros i f f' Hf Hf'.
  destruct (Forall2_lookup_lr _ _ _ _ _ _ Hall Hf Hf') as (m & Hm & ->).
  split; [by destruct m |]. split.
  - rewrite Hm. intros [= ->]. reflexivity.
  - rewrite Hm. intros [= ->]. cbn.
    unfold assign_properties, feature_properties.
    split.
    + destruct (properties f !! "__proto__") as [[| | | |] |];
        try apply lookup_delete_eq.
      destruct (patch !! "__proto__");
        [apply lookup_insert_eq | apply lookup_delete_eq].
    + intros key Hkey.
      assert (E : delete "__proto__" (patch ∪ properties f) !! key
                  = match patch !! key with
                    | Some v => Some v
                    | None => properties f !! key
                    end).
      { rewrite lookup_delete_ne by done.
        rewrite lookup_union. by destruct (patch !! key), (_ !! key). }
      destruct (properties f !! "__proto__") as [[| | | |] |]; try exact E.
      destruct (patch !! "__proto__"); [| exact E].
      by rewrite lookup_insert_ne.
Qed.

(** *** [transformFeatures] *)

Lemma get_insert_ne (props : gmap string scalar) k k' v :
  k' <> k -> get (<[k' := v]> props) k = get props k.
Proof. intros Hne. unfold get. by rewrite lookup_insert_ne. Qed.

Lemma transform_properties_other (transforms : list (string * scalar))
    (props : gmap string scalar) key :
  key ∉ transforms.*1 ->
  transform_properties transforms props !! key = props !! key.
Proof.
  unfold Edits.transform_properties. revert props.
  induction transforms as [| [prop kind] transforms IH]; intros props Hkey;
    [reflexivity |].
  cbn [fold_left]. rewrite IH.
  - apply lookup_insert_ne. intros ->. apply Hkey. cbn. apply list_elem_of_here.
  - intros Hin. apply Hkey. cbn. by apply list_elem_of_further.
Qed.

Lemma transform_properties_key (transforms : list (string * scalar))
    (props : gmap string scalar) key kind :
  NoDup (transforms.*1) -> (key, kind) ∈ transforms ->
  transform_properties transforms props !! key
  = Some (transform_value kind (get props key)).
Proof.
  unfold Edits.transform_properties. revert props.
  induction transforms as [| [prop kind'] transforms IH]; intros props Hnd Hin;
    [inversion Hin |].
  cbn in Hnd. apply NoDup_cons in Hnd as [Hprop Hnd]. cbn [fold_left].
  apply elem_of_cons in Hin as [[= -> ->] | Hin].
  - fold (transform_properties transforms
            (<[prop := transform_value kind' (get props prop)]> props)).
    rewrite transform_properties_other by exact Hprop.
    apply lookup_insert_eq.
  - rewrite (IH _ Hnd Hin). rewrite get_insert_ne; [reflexivity |].
    intros ->. apply Hprop. apply list_elem_of_fmap. by exists (key, kind).
Qed.


Lemma transform_value_twice kind v :
  strict_eq kind (SString "number") = false ->
  transform_value kind (transform_value kind v) = transform_value kind v.
Proof.
  intros Hk. unfold Edits.transform_value. rewrite Hk.
  by destruct (strict_eq kind (SString "string")).
Qed.

(** With no ['number'] among its kinds, [transformFeatures] applied again
    to its result changes nothing. *)
Theorem transformFeatures_idempotent (transforms : list (string * scalar))
    (features : list Feature) :
  NoDup (transforms.*1) ->
  Forall (fun pk => strict_eq pk.2 (SString "number") = false) transforms ->
  transformFeatures (Some transforms)
                    (transformFeatures (Some transforms) features)
  = transformFeatures (Some transforms) features.
Proof.
  intros Hnd Hkinds. unfold Edits.transformFeatures.
  rewrite <- list_fmap_compose. apply list_fmap_ext. intros _ f _.
  cbn. f_equal. unfold feature_properties. cbn. apply map_eq. intros key.
  destruct (decide (key ∈ transforms.*1)) as [Hin | Hout].
  - apply list_elem_of_fmap in Hin as ([k kind] & -> & Hin). cbn [fst].
    rewrite !(transform_properties_key _ _ k kind Hnd Hin).
    unfold get at 1. rewrite (transform_properties_key _ _ k kind Hnd Hin).
    f_equal. apply transform_value_twice.
    rewrite Forall_forall in Hkinds. apply (Hkinds _ Hin).
  - by rewrite !transform_properties_other.
Qed.

End Facts.

Definition no_number : string -> number := fun _ => NaN.
Definition no_text : number -> string := fun _ => "".

Definition feature_pin (pin : string) : Feature :=
  {| geometry := OtherGeometry ""; properties := {["PIN" := SString pin]} |}.

Definition two_features : list Feature := [feature_pin "123"; feature_pin "456"].

Definition filter_pin : Filter.filter :=
  [("PIN", Filter.FValue (JScalar (SString "123")))].

Lemma changeFeatures_patch_witness :
  exists new_features,
    changeFeatures no_number no_text two_features filter_pin
                   {["owner" := SString "x"]}
    = Normal new_features /\
    length new_features = length two_features /\
    forall i f f',
      two_features !! i = Some f -> new_features !! i = Some f' ->
      geometry f' = geometry f /\
      (Filter.featureMatch no_number no_text f filter_pin = Normal false ->
       f' = f) /\
      (Filter.featureMatch no_number no_text f filter_pin = Normal true ->
       properties f' !! "__proto__" =
         match properties f !! "__proto__",
               ({["owner" := SString "x"]} : gmap string scalar) !! "__proto__"
         with
         | Some SNull, Some v => Some v
         | _, _ => None
         end /\
       forall key, key <> "__proto__" ->
         properties f' !! key =
         match ({["owner" := SString "x"]} : gmap string scalar) !! key with
         | Some v => Some v
         | None => properties f !! key
         end).
Proof.
  apply (changeFeatures_patch no_number no_text two_features filter_pin
           {["owner" := SString "x"]}).
  repeat constructor; eexists; vm_compute; reflexivity.
Defined.

(** The matching feature gets the new key, the other one is unchanged. *)
Example changeFeatures_two_features :
  changeFeatures no_number no_text two_features filter_pin
                 {["owner" := SString "x"]}
  = Normal [ {| geometry := OtherGeometry "";
                properties := {["owner" := SString "x"; "PIN" := SString "123"]} |};
             feature_pin "456" ].
Proof. vm_compute. reflexivity. Qed.

(** A ["__proto__"] among the properties of the feature or in the given
    ones is not copied; after a [null] one of the feature, the given one is. *)
Example assign_properties_proto :
  assign_properties {["PIN" := SString "1"; "__proto__" := SString "a"]}
                    {["__proto__" := SString "b"]}
  = {["PIN" := SString "1"]} /\
  assign_properties {["PIN" := SString "1"; "__proto__" := SNull]}
                    {["__proto__" := SString "b"]}
  = {["PIN" := SString "1"; "__proto__" := SString "b"]}.
Proof. split; vm_compute; reflexivity. Qed.



Lemma transformFeatures_idempotent_witness :
  transformFeatures no_text no_number (Some [("owner", SString "string")])
    (transformFeatures no_text no_number (Some [("owner", SString "string")])
                       two_features)
  = transformFeatures no_text no_number (Some [("owner", SString "string")])
                      two_features.
Proof.
  apply (transformFeatures_idempotent no_text no_number
           [("owner", SString "string")] two_features).
  - refine (bool_decide_unpack _ _). vm_compute. exact I.
  - repeat constructor.
Defined.

End EditsFacts.

(** ** Feature set operations: the two halves of a filter *)

Module FeaturesSplit.
Import Features.

Section Facts.

Variable expression : Type.
Variable all : expression.
Variable createFilter : list expression -> Feature -> bool.

Local Abbreviation filterFeatures := (filterFeatures expression all createFilter).
Local Abbreviation matchFeatures := (matchFeatures expression all createFilter).

Lemma filter_sublist {A} (p : A -> bool) (l : list A) :
  sublist (List.filter p l) l.
Proof.
  induction l as [| x l IH]; cbn; [constructor |].
  destruct (p x); by constructor.
Qed.

Lemma filter_split {A} (p : A -> bool) (l : list A) :
  (List.filter p l ++ List.filter (fun x => negb (p x)) l)%list ≡ₚ l.
Proof.
  induction l as [| x l IH]; cbn; [reflexivity |].
  destruct (p x); cbn.
  - by rewrite IH.
  - by rewrite <- Permutation_middle, IH.
Qed.

(** [matchFeatures] returns the features on which the compiled predicate
    is true and [filterFeatures], without [inverse], the others: each of
    the two is the input with some features left out, in the input's
    order, and together they hold every feature of the input once.
    Without a filter [matchFeatures] returns its input. *)
Theorem matchFeatures_filterFeatures_split (features : list Feature)
    (filter : list expression) :
  matchFeatures features (Some filter)
  = List.filter (createFilter (all :: filter)) features /\
  sublist (matchFeatures features (Some filter)) features /\
  sublist (filterFeatures features filter None) features /\
  (matchFeatures features (Some filter)
   ++ filterFeatures features filter None)%list ≡ₚ features /\
  matchFeatures features None = features.
Proof.
  assert (E1 : matchFeatures features (Some filter)
               = List.filter (createFilter (all :: filter)) features).
  { unfold Features.matchFeatures.
    rewrite FeaturesFacts.filterFeatures_filter. apply filter_ext.
    intros f. unfold strict_neq. by destruct (createFilter (all :: filter) f). }
  assert (E2 : filterFeatures features filter None
               = List.filter (fun f => negb (createFilter (all :: filter) f))
                             features).
  { rewrite FeaturesFacts.filterFeatures_filter. apply filter_ext.
    intros f. unfold strict_neq. by destruct (createFilter (all :: filter) f). }
  rewrite E1, E2. repeat split.
  - apply filter_sublist.
  - apply filter_sublist.
  - apply filter_split.
Qed.

End Facts.

End FeaturesSplit.

(** ** The extent as a bounding box *)

Module ExtentBox.
Import Extent DoubleFacts ExtentFacts.

Lemma fold_min_nil_iff xs : fold_min None xs = None <-> xs = [].
Proof.
  destruct xs as [| x xs]; [done |]. cbn.
  fold (fold_min (Some x) xs). destruct (fold_min_Some x xs) as [r ->].
  split; discriminate.
Qed.

(** The extent is all [null] exactly when no coordinate pair is visited:
    no features, or only geometries of other kinds, or empty ones; so it
    is for a first layer without [features]. The layers after the first
    are not looked at, and a source without layers makes the call raise. *)
Theorem getFeaturesExtent_null (fs : list Feature) (l : layer)
    (more : list layer) :
  (getFeaturesExtent (source_of fs) = Normal (None, None, None, None) <->
   all_visited fs = []) /\
  getFeaturesExtent {| layers := [{| features := None |}] |}
  = Normal (None, None, None, None) /\
  getFeaturesExtent {| layers := l :: more |}
  = getFeaturesExtent {| layers := [l] |} /\
  getFeaturesExtent {| layers := [] |} = Throw TypeError.
Proof.
  split; [| by repeat split].
  rewrite getFeaturesExtent_visited, update_bounds_slots. split.
  - intros [= H _ _ _]. apply fold_min_nil_iff in H.
    by apply fmap_nil_inv in H.
  - by intros ->.
Qed.

(** For a collection that visits at least one coordinate pair and none
    with a [NaN], the four slots are numbers, each the coordinate of a
    visited pair, and they bound every visited pair: no [x] is below [minX]
    or above [maxX], no [y] below [minY] or above [maxY]. *)
Theorem getFeaturesExtent_bounds (fs : list Feature) :
  Forall not_nan (all_visited fs) ->
  all_visited fs <> [] ->
  exists minX minY maxX maxY,
    getFeaturesExtent (source_of fs)
    = Normal (Some minX, Some minY, Some maxX, Some maxY) /\
    (minX ∈ (all_visited fs).*1 /\ minY ∈ (all_visited fs).*2 /\
     maxX ∈ (all_visited fs).*1 /\ maxY ∈ (all_visited fs).*2) /\
    forall x y, (x, y) ∈ all_visited fs ->
      num_lt x minX = false /\ num_lt maxX x = false /\
      num_lt y minY = false /\ num_lt maxY y = false.
Proof.
  intros Hnan Hne. rewrite getFeaturesExtent_visited, update_bounds_slots.
  destruct (all_visited fs) as [| [x0 y0] pts]; [done |].
  apply Forall_cons in Hnan as [[Hx0 Hy0] Hpts]. cbn [fst snd] in Hx0, Hy0.
  assert (Hxs : Forall (fun x => is_nan x = false) (pts.*1)).
  { apply Forall_fmap. eapply Forall_impl; [exact Hpts |]. by intros p []. }
  assert (Hys : Forall (fun x => is_nan x = false) (pts.*2)).
  { apply Forall_fmap. eapply Forall_impl; [exact Hpts |]. by intros p []. }
  cbn [fmap list_fmap fst snd].
  change (fold_min None (x0 :: pts.*1)) with (fold_min (Some x0) (pts.*1)).
  change (fold_min None (y0 :: pts.*2)) with (fold_min (Some y0) (pts.*2)).
  change (fold_max None (x0 :: pts.*1)) with (fold_max (Some x0) (pts.*1)).
  change (fold_max None (y0 :: pts.*2)) with (fold_max (Some y0) (pts.*2)).
  destruct (fold_min_Some x0 (pts.*1)) as [minX HminX].
  destruct (fold_min_Some y0 (pts.*2)) as [minY HminY].
  destruct (fold_max_Some x0 (pts.*1)) as [maxX HmaxX].
  destruct (fold_max_Some y0 (pts.*2)) as [maxY HmaxY].
  exists minX, minY, maxX, maxY.
  rewrite HminX, HminY, HmaxX, HmaxY. split; [reflexivity |].
  destruct (fold_min_least _ _ _ Hx0 Hxs HminX) as [? HX1].
  destruct (fold_min_least _ _ _ Hy0 Hys HminY) as [? HY1].
  destruct (fold_max_greatest _ _ _ Hx0 Hxs HmaxX) as [? HX2].
  destruct (fold_max_greatest _ _ _ Hy0 Hys HmaxY) as [? HY2].
  split; [done |]. intros x y Hin.
  assert (x ∈ x0 :: pts.*1).
  { change (x0 :: pts.*1) with (((x0, y0) :: pts).*1).
    apply list_elem_of_fmap. by exists (x, y). }
  assert (y ∈ y0 :: pts.*2).
  { change (y0 :: pts.*2) with (((x0, y0) :: pts).*2).
    apply list_elem_of_fmap. by exists (x, y). }
  auto.
Qed.

Lemma getFeaturesExtent_bounds_witness :
  exists minX minY maxX maxY,
    getFeaturesExtent
      (source_of [point_feature num_1 num_2; point_feature num_minus_3 num_4])
    = Normal (Some minX, Some minY, Some maxX, Some maxY) /\
    (minX ∈ (all_visited [point_feature num_1 num_2;
                          point_feature num_minus_3 num_4]).*1 /\
     minY ∈ (all_visited [point_feature num_1 num_2;
                          point_feature num_minus_3 num_4]).*2 /\
     maxX ∈ (all_visited [point_feature num_1 num_2;
                          point_feature num_minus_3 num_4]).*1 /\
     maxY ∈ (all_visited [point_feature num_1 num_2;
                          point_feature num_minus_3 num_4]).*2) /\
    forall x y,
      (x, y) ∈ all_visited [point_feature num_1 num_2;
                            point_feature num_minus_3 num_4] ->
      num_lt x minX = false /\ num_lt maxX x = false /\
      num_lt y minY = false /\ num_lt maxY y = false.
Proof.
  apply (getFeaturesExtent_bounds
           [point_feature num_1 num_2; point_feature num_minus_3 num_4]).
  - repeat constructor.
  - discriminate.
Defined.

End ExtentBox.

(** ** Unit conversion: when the result is [NaN] *)

Module UnitsNaN.
Import Units DoubleFacts UnitsFacts.

Lemma shr_1_nonneg mrs : 0 <= shr_m mrs -> 0 <= shr_m (shr_1 mrs).
Proof.
  destruct mrs as [m r s]. cbn [shr_m]. intros Hm.
  destruct m as [| [p | p |] | p]; cbn; lia.
Qed.

Lemma iter_shr_1_nonneg p mrs :
  0 <= shr_m mrs -> 0 <= shr_m (SpecFloat.iter_pos shr_1 p mrs).
Proof.
  revert mrs. induction p as [p IH | p IH |]; intros mrs Hm;
    cbn [SpecFloat.iter_pos].
  - by apply IH, IH, shr_1_nonneg.
  - by apply IH, IH.
  - by apply shr_1_nonneg.
Qed.

Lemma shr_fexp_nonneg m e l :
  0 <= m -> 0 <= shr_m (shr_fexp 53 1024 m e l).1.
Proof.
  intros Hm. unfold shr_fexp, shr.
  assert (H0 : 0 <= shr_m (shr_record_of_loc m l)) by (by destruct l as [| []]).
  destruct (fexp 53 1024 (Zdigits2 m + e) - e) as [| p | p]; cbn [fst];
    [exact H0 | by apply iter_shr_1_nonneg | exact H0].
Qed.

Lemma round_nearest_even_nonneg mx lx :
  0 <= mx -> 0 <= round_nearest_even mx lx.
Proof.
  intros Hm. destruct lx as [| []]; cbn; try destruct (Z.even mx); lia.
Qed.

(** Rounding a non-negative mantissa gives a zero, a finite number or an
    infinity. *)
Lemma binary_round_aux_not_nan s m e l :
  0 <= m -> is_nan (binary_round_aux 53 1024 s m e l) = false.
Proof.
  intros Hm. unfold binary_round_aux.
  pose proof (shr_fexp_nonneg m e l Hm) as H1.
  destruct (shr_fexp 53 1024 m e l) as [mrs' e']. cbn [fst] in H1.
  pose proof (shr_fexp_nonneg _ e' loc_Exact
                (round_nearest_even_nonneg _ (loc_of_shr_record mrs') H1)) as H2.
  destruct (shr_fexp 53 1024 _ e' loc_Exact) as [mrs'' e'']. cbn [fst] in H2.
  destruct (shr_m mrs'') as [| p | p]; [reflexivity | | lia].
  by destruct (e'' <=? 1024 - 53).
Qed.

Lemma js_mul_finite_nan x s m e :
  is_nan (js_mul x (S754_finite s m e)) = is_nan x.
Proof.
  destruct x as [sx | sx | | sx mx ex]; try reflexivity.
  unfold js_mul, SFmul. by apply binary_round_aux_not_nan.
Qed.

Lemma div_core_nonneg m1 e1 m2 e2 :
  0 <= (SFdiv_core_binary 53 1024 (Zpos m1) e1 (Zpos m2) e2).1.1.
Proof.
  unfold SFdiv_core_binary.
  set (s := (e1 - e2 - _)).
  set (m' := match s with Z0 => _ | Zpos _ => _ | Zneg _ => _ end).
  assert (Hm' : 0 <= m').
  { unfold m'. destruct s; [lia | | lia].
    rewrite Z.shiftl_mul_pow2 by lia. 
    apply Z.mul_nonneg_nonneg; [lia | apply Z.pow_nonneg; lia]. }
  assert (E : Z.div_eucl m' (Zpos m2) = (m' / Zpos m2, m' mod Zpos m2)).
  { unfold Z.div, Z.modulo. by destruct (Z.div_eucl m' (Zpos m2)). }
  std_Z. rewrite E. cbn [fst]. apply Z.div_pos; lia.
Qed.

Lemma js_div_finite_nan x s m e :
  is_nan (js_div x (S754_finite s m e)) = is_nan x.
Proof.
  destruct x as [sx | sx | | sx mx ex]; try reflexivity.
  unfold js_div, SFdiv.
  pose proof (div_core_nonneg mx ex m e) as H.
  destruct (SFdiv_core_binary 53 1024 (Zpos mx) ex (Zpos m) e) as [[mz ez] lz].
  by apply binary_round_aux_not_nan.
Qed.

(** Every factor of the table and its square are finite numbers. *)
Lemma table_finite (u : string) :
  u ∈ unit_symbols ->
  exists (n : number) s m e s2 m2 e2,
    EQUIVALENT_METERS !! u = Some n /\ n = S754_finite s m e /\
    Math_pow2 n = S754_finite s2 m2 e2.
Proof.
  unfold unit_symbols. intros Hu.
  repeat (apply elem_of_cons in Hu as [-> | Hu];
          [do 7 eexists; repeat split; vm_compute; reflexivity |]).
  inversion Hu.
Qed.

(** [convertLength] and [convertArea] return [NaN] in two cases only: the
    value converted is [NaN], or one of the two units is not in the
    table. *)
Theorem convert_nan_iff (x : number) (srcUnits destUnits : string) :
  (is_nan (convertLength x srcUnits destUnits) = true <->
   is_nan x = true \/ srcUnits ∉ unit_symbols \/ destUnits ∉ unit_symbols) /\
  (is_nan (convertArea x srcUnits destUnits) = true <->
   is_nan x = true \/ srcUnits ∉ unit_symbols \/ destUnits ∉ unit_symbols).
Proof.
  destruct (decide (srcUnits ∈ unit_symbols)) as [Hs | Hs].
  2:{ unfold convertLength, convertArea, Math_pow2.
      rewrite (lookup_unknown _ Hs). cbn [ToNumber_opt].
      rewrite !js_mul_nan_r, !js_div_nan_l. cbn. by split; split; auto. }
  destruct (decide (destUnits ∈ unit_symbols)) as [Hd | Hd].
  2:{ unfold convertLength, convertArea, Math_pow2.
      rewrite (lookup_unknown _ Hd). cbn [ToNumber_opt].
      rewrite js_mul_nan_r, !js_div_nan_r. cbn. by split; split; auto. }
  destruct (table_finite _ Hs)
    as (n1 & s1 & m1 & e1 & s1' & m1' & e1' & Hs1 & Hn1 & Hp1).
  destruct (table_finite _ Hd)
    as (n2 & s2 & m2 & e2 & s2' & m2' & e2' & Hs2 & Hn2 & Hp2).
  unfold convertLength, convertArea. rewrite Hs1, Hs2. cbn [ToNumber_opt].
  rewrite Hp1, Hp2, Hn1, Hn2, !js_div_finite_nan, !js_mul_finite_nan.
  split; (split; [by left | by intros [? | [? | ?]]]).
Qed.

(** From meters, the conversions round once: [metersLengthToUnits] is the
    quotient of the value by the factor of the unit, [metersAreaToUnits] the
    quotient by its square, and meters to meters is the value itself. *)
Theorem meters_to_units (x : number) (units : string) :
  is_double x = true ->
  metersLengthToUnits x units
  = js_div x (ToNumber_opt (EQUIVALENT_METERS !! units)) /\
  metersAreaToUnits x units
  = js_div x (Math_pow2 (ToNumber_opt (EQUIVALENT_METERS !! units))) /\
  metersLengthToUnits x "m" = x /\
  metersAreaToUnits x "m" = x.
Proof.
  intros Hx.
  assert (E1 : forall u, metersLengthToUnits x u
                         = js_div x (ToNumber_opt (EQUIVALENT_METERS !! u))).
  { intros u. unfold metersLengthToUnits, convertLength.
    change (ToNumber_opt (EQUIVALENT_METERS !! "m")) with one.
    by rewrite (mul_one x Hx). }
  assert (E2 : forall u, metersAreaToUnits x u
                 = js_div x (Math_pow2 (ToNumber_opt (EQUIVALENT_METERS !! u)))).
  { intros u. unfold metersAreaToUnits, convertArea.
    change (Math_pow2 (ToNumber_opt (EQUIVALENT_METERS !! "m"))) with one.
    by rewrite (mul_one x Hx). }
  split; [apply E1 |]. split; [apply E2 |]. split.
  - rewrite E1. change (ToNumber_opt (EQUIVALENT_METERS !! "m")) with one.
    by apply div_one.
  - rewrite E2.
    change (Math_pow2 (ToNumber_opt (EQUIVALENT_METERS !! "m"))) with one.
    by apply div_one.
Qed.

Lemma meters_to_units_witness :
  metersLengthToUnits lit_7 "ft"
  = js_div lit_7 (ToNumber_opt (EQUIVALENT_METERS !! "ft")) /\
  metersAreaToUnits lit_7 "ft"
  = js_div lit_7 (Math_pow2 (ToNumber_opt (EQUIVALENT_METERS !! "ft"))) /\
  metersLengthToUnits lit_7 "m" = lit_7 /\
  metersAreaToUnits lit_7 "m" = lit_7.
Proof. apply (meters_to_units lit_7 "ft"). reflexivity. Defined.

End UnitsNaN.

(** ** UTM projections: looking the definitions up *)

Module ProjectionsLookup.
Import Projections ProjectionsFacts.

Lemma find_app_l {A} (f : A -> bool) (l1 l2 : list A) :
  is_Some (List.find f l1) -> List.find f (l1 ++ l2)%list = List.find f l1.
Proof.
  induction l1 as [| x l1 IH]; cbn; [by intros [? [=]] |].
  by destruct (f x).
Qed.

(** A name that the later definitions [c] define is looked up in [c]. *)
Lemma defs_get_later (p4 c : registry) name :
  is_Some (List.find (fun e => String.eqb e.1 name) (rev c)) ->
  defs_get (p4 ++ c)%list name = defs_get c name.
Proof.
  intros H. unfold defs_get. by rewrite rev_app_distr, find_app_l.
Qed.

Definition zone_lookup_ok (zone : Z) (north : string) : Prop :=
  is_Some (List.find (fun e => String.eqb e.1 (proj_id zone north)) (rev calls)) /\
  is_Some (List.find (fun e => String.eqb e.1 (proj_alias zone north)) (rev calls)) /\
  defs_get calls (proj_id zone north) = Some (proj_string zone north) /\
  defs_get calls (proj_alias zone north) = Some (proj_string zone north).

Lemma all_zone_lookups_ok :
  Forall (fun zone => zone_lookup_ok zone "north" /\ zone_lookup_ok zone "south")
         (seqZ 1 60).
Proof.
  unfold zone_lookup_ok. refine (bool_decide_unpack _ _). vm_compute. exact I.
Qed.

(** After the builder has run on a registry, whatever it held, the id and
    the alias of every zone from 1 to 60 in either hemisphere are looked up
    to the same definition, the proj-string of the zone. *)
Theorem configureProjections_lookup (p4 : registry) (zone : Z) (north : string) :
  1 <= zone <= 60 ->
  north = "north" \/ north = "south" ->
  defs_get (configureProjections p4) (proj_id zone north)
  = Some (proj_string zone north) /\
  defs_get (configureProjections p4) (proj_alias zone north)
  = Some (proj_string zone north).
Proof.
  intros Hzone Hnorth.
  assert (E : configureProjections p4 = (p4 ++ calls)%list).
  { unfold calls. by rewrite !configureProjections_calls. }
  assert (Hin : zone ∈ seqZ 1 60) by (apply elem_of_seqZ; lia).
  pose proof all_zone_lookups_ok as Hall. rewrite Forall_forall in Hall.
  destruct (Hall zone Hin) as [Hn Hs].
  assert (H : zone_lookup_ok zone north) by (by destruct Hnorth as [-> | ->]).
  destruct H as (F1 & F2 & G1 & G2).
  rewrite E, !defs_get_later by done. by split.
Qed.

Lemma configureProjections_lookup_witness :
  defs_get (configureProjections [("UTM15N", Some "stale")]) (proj_id 15 "north")
  = Some (proj_string 15 "north") /\
  defs_get (configureProjections [("UTM15N", Some "stale")])
           (proj_alias 15 "north")
  = Some (proj_string 15 "north").
Proof.
  apply (configureProjections_lookup [("UTM15N", Some "stale")] 15 "north").
  - lia.
  - left. reflexivity.
Defined.

End ProjectionsLookup.

(** ** Catalog visibility: how [isLayerOn] composes *)

Module CatalogMore.
Import Catalog CatalogFacts.

Lemma sublayers_on_and ref ls is_on :
  sublayers_on ref ls is_on = is_on && sublayers_on ref ls true.
Proof.
  destruct is_on; [reflexivity |]. apply sublayers_on_false.
Qed.

(** The loop returns [true] iff it starts from [true] and every reference
    is on. *)
Lemma isLayerOn_loop_on m srcs is_on :
  isLayerOn_loop m srcs is_on = Normal true <->
  is_on = true /\ forall ref, ref ∈ srcs -> ref_on m ref.
Proof.
  destruct is_on.
  - rewrite isLayerOn_loop_true. by split; [| intros [_ ?]].
  - split; [intros E; by apply isLayerOn_loop_false in E | by intros [? _]].
Qed.

Lemma returns_true_on mapSources layer :
  returns_true mapSources layer = true <->
  exists m, mapSources = Some m /\ forall ref, ref ∈ src layer -> ref_on m ref.
Proof.
  rewrite <- isLayerOn_true. unfold returns_true.
  by destruct (isLayerOn mapSources layer) as [[|] | e].
Qed.

(** A layer that refers to the references of two layers is on iff both of
    them are on. *)
Theorem isLayerOn_app (mapSources : option (gmap string MapSource))
    (c1 c2 c : option (list string)) (srcs1 srcs2 : list SourceRef) :
  returns_true mapSources {| children := c; src := (srcs1 ++ srcs2)%list |}
  = returns_true mapSources {| children := c1; src := srcs1 |}
    && returns_true mapSources {| children := c2; src := srcs2 |}.
Proof.
  apply eq_true_iff_eq. rewrite andb_true_iff, !returns_true_on. cbn [src].
  split.
  - intros (m & -> & H). split; exists m; (split; [reflexivity |]);
      intros ref Href; apply H, elem_of_app; auto.
  - intros [(m & -> & H1) (m' & [= <-] & H2)]. exists m.
    split; [reflexivity |]. intros ref Href.
    apply elem_of_app in Href as [Href | Href]; auto.
Qed.

(** One layer of a referenced map source that bears the referenced name
    and is off keeps the catalog layer from being on: [isLayerOn] does not
    return [true], and it returns [false] where no reference of the layer
    reads a member inherited from [Object.prototype]. *)
Theorem isLayerOn_one_off (m : gmap string MapSource) (layer : CatalogNode)
    (ref : SourceRef) (source : MapSource) (l : SubLayer) :
  ref ∈ src layer ->
  m !! mapSourceName ref = Some source ->
  l ∈ layers source ->
  name l = layerName ref ->
  on l = false ->
  isLayerOn (Some m) layer <> Normal true /\
  ((forall r, r ∈ src layer -> ~ names_inherited m r) ->
   isLayerOn (Some m) layer = Normal false).
Proof.
  intros Href Hsource Hl Hname Hoff.
  assert (Hnot : isLayerOn (Some m) layer <> Normal true).
  { intros Hon. apply isLayerOn_true in Hon as (m' & [= <-] & Hall).
    destruct (Hall ref Href) as (source' & Hs' & Hons).
    rewrite Hsource in Hs'. injection Hs' as <-.
    rewrite (Hons l Hl Hname) in Hoff. discriminate. }
  split; [exact Hnot |]. intros Hplain.
  destruct (isLayerOn_returns (Some m) layer) as ([|] & E); [| done | done].
  intros m' r [= <-]. apply Hplain.
Qed.

Definition ms_one_off : gmap string MapSource :=
  {["A" := {| zIndex := 1;
              layers := [{| name := "l1"; on := true |};
                         {| name := "l2"; on := false |}] |}]}.

Definition layer_l1_l2 : CatalogNode :=
  {| children := None;
     src := [{| mapSourceName := "A"; layerName := "l1" |};
             {| mapSourceName := "A"; layerName := "l2" |}] |}.

Lemma isLayerOn_one_off_witness :
  isLayerOn (Some ms_one_off) layer_l1_l2 <> Normal true /\
  ((forall r, r ∈ src layer_l1_l2 -> ~ names_inherited ms_one_off r) ->
   isLayerOn (Some ms_one_off) layer_l1_l2 = Normal false).
Proof.
  apply (isLayerOn_one_off ms_one_off layer_l1_l2
           {| mapSourceName := "A"; layerName := "l2" |}
           {| zIndex := 1;
              layers := [{| name := "l1"; on := true |};
                         {| name := "l2"; on := false |}] |}
           {| name := "l2"; on := false |}).
  - apply list_elem_of_further, list_elem_of_here.
  - reflexivity.
  - apply list_elem_of_further, list_elem_of_here.
  - reflexivity.
  - reflexivity.
Defined.

Lemma get_member_insert_ne m key name source :
  name <> key -> get_member (<[key := source]> m) name = get_member m name.
Proof. intros NE. unfold get_member. by rewrite lookup_insert_ne. Qed.

Lemma isLayerOn_loop_insert m srcs is_on key source :
  (forall ref, ref ∈ srcs -> mapSourceName ref <> key) ->
  isLayerOn_loop (<[key := source]> m) srcs is_on = isLayerOn_loop m srcs is_on.
Proof.
  revert is_on. induction srcs as [| ref srcs IH]; intros is_on H;
    [reflexivity |].
  cbn. rewrite get_member_insert_ne.
  2:{ apply (H ref). apply list_elem_of_here. }
  destruct (get_member m (mapSourceName ref)); [| reflexivity | reflexivity].
  apply IH. intros r Hr. apply H. by apply list_elem_of_further.
Qed.

(** What [isLayerOn] and [getZValue] answer for a layer does not change
    when a map source that the layer does not refer to is added or
    replaced. *)
Theorem isLayerOn_unreferenced (m : gmap string MapSource) (layer : CatalogNode)
    (key : string) (source : MapSource) :
  (forall ref, ref ∈ src layer -> mapSourceName ref <> key) ->
  isLayerOn (Some (<[key := source]> m)) layer = isLayerOn (Some m) layer /\
  getZValue (Some (<[key := source]> m)) layer = getZValue (Some m) layer.
Proof.
  intros H. split; [by apply isLayerOn_loop_insert |].
  unfold getZValue. destruct (src layer) as [| ref refs]; [reflexivity |].
  rewrite get_member_insert_ne; [reflexivity |].
  apply (H ref). apply list_elem_of_here.
Qed.

Lemma isLayerOn_unreferenced_witness :
  isLayerOn (Some (<["C" := {| zIndex := 7; layers := [] |}]> ms_5_10))
            (layer_of "A" "l1")
  = isLayerOn (Some ms_5_10) (layer_of "A" "l1") /\
  getZValue (Some (<["C" := {| zIndex := 7; layers := [] |}]> ms_5_10))
            (layer_of "A" "l1")
  = getZValue (Some ms_5_10) (layer_of "A" "l1").
Proof.
  apply (isLayerOn_unreferenced ms_5_10 (layer_of "A" "l1") "C"
           {| zIndex := 7; layers := [] |}).
  intros ref Href. apply list_elem_of_singleton in Href as ->. discriminate.
Defined.

Lemma collect_layers_undefined (entries : catalog) (acc : list Entry.t) :
  collect_layers None entries acc = Normal acc.
Proof.
  induction entries as [| [key [node |]] entries IH]; cbn; [reflexivity | | exact IH].
  by destruct (no_children node).
Qed.

(** While [mapSources] is [undefined], no layer is on and
    [getLayersByZOrder] returns the empty list for every catalog, also for
    one with layers that have no references. *)
Theorem getLayersByZOrder_undefined (catalog : catalog) :
  getLayersByZOrder catalog None = Normal [] /\
  forall layer, isLayerOn None layer = Normal false.
Proof.
  split; [| reflexivity].
  unfold getLayersByZOrder. by rewrite collect_layers_undefined.
Qed.

End CatalogMore.
